(** * Local persistence engine and its REST-compatible shim

    A shallow embedding of [src/local/local-storage-manager.ts] (the
    IndexedDB-backed [LocalStorageManager]) and of the [LocalAjax] adapter of
    [src/local/local-rest-api.ts], with the properties of the design document
    stated and proved over it; then of the code around them (the sample
    seeder, the start-up module, the backup functions and some functions of
    the shim), with further properties of the manager and of that code.

    Modelling conventions.
    - An IndexedDB object store with [keyPath: 'id'] is a finite map from the
      primary key to the stored record ([gmap Z R]); the [metadata] store maps
      its string keys to the saved counter values.
    - Identifiers and counters are JavaScript numbers holding integers; they
      are [Z], and [n++] is [n + 1], which is exact below [2^53].
    - A promise is a state transformer returning [Ok] (resolved) or [Err]
      (rejected).  Every IndexedDB transaction is one atomic step whose
      completion the caller observes; opening the database succeeds.
    - [new Date().toISOString()] reads a clock: the i-th reading of a run is
      [clock i], and every reading advances the read counter of the world.
    - Values of TypeScript type [any] are [JsVal]. *)

From stdpp Require Import gmap strings list fin_maps sorting pretty.
From Stdlib Require Import ZArith Lia.

Local Open Scope Z_scope.
Set Warnings "-register-all".
Set Default Proof Using "Type".

(** ** JavaScript values *)

(** Values of type [any].  Numbers are integers: the fields modelled hold
    ids, status codes and counters. *)
Inductive JsVal : Type :=
| JUndefined
| JNull
| JBool (b : bool)
| JNum (n : Z)
| JStr (s : string)
| JArr (items : list JsVal)
| JObj (fields : list (string * JsVal)).

(** Truthiness, as tested by [||] and [if]. *)
Definition truthy (v : JsVal) : bool :=
  match v with
  | JUndefined | JNull => false
  | JBool b => b
  | JNum n => negb (n =? 0)
  | JStr s => negb (String.eqb s "")
  | JArr _ | JObj _ => true
  end.

(** [v || d] on a property of type [any] that may be absent. *)
Definition any_or (v : option JsVal) (d : JsVal) : JsVal :=
  match v with
  | Some x => if truthy x then x else d
  | None => d
  end.

(** [s || d] on an optional string property. *)
Definition str_or (s : option string) (d : string) : string :=
  match s with
  | Some x => if String.eqb x "" then d else x
  | None => d
  end.

(** [n || d] on an optional number property. *)
Definition num_or (n : option Z) (d : Z) : Z :=
  match n with
  | Some x => if x =? 0 then d else x
  | None => d
  end.

(** [parent?: number | null]. *)
Inductive Parent : Type :=
| ParentUndefined
| ParentNull
| ParentId (n : Z).

(** [data.parent ?? null]. *)
Definition parent_or_null (p : option Parent) : Parent :=
  match p with
  | Some (ParentId n) => ParentId n
  | _ => ParentNull
  end.

(** ** Entities *)

Definition Timestamp : Type := string.

Record Project : Type := mkProject {
  p_id : Z;
  p_name : string;
  p_description : option string;
  p_owner : JsVal;
  p_created : Timestamp;
  p_modified : Timestamp;
  p_private : option bool;
  p_private_source_assets : option bool;
  p_settings : JsVal;
  p_fork_from : option Z;
  p_image_url : option string;
  p_website : option string;
  p_tags : option (list string);
  p_primary_app : option Z
}.

Record Asset : Type := mkAsset {
  a_id : Z;
  a_projectId : Z;
  a_branchId : string;
  a_name : string;
  a_type : string;
  a_parent : Parent;
  a_file : JsVal;
  a_data : JsVal;
  a_created : Timestamp;
  a_modified : Timestamp;
  a_thumbnails : JsVal
}.

Record Scene : Type := mkScene {
  s_id : Z;
  s_projectId : Z;
  s_branchId : string;
  s_name : string;
  s_data : JsVal;
  s_created : Timestamp;
  s_modified : Timestamp
}.

(** [Partial<Project>]: every property may be absent ([None]).  A property
    that is optional in [Project] may also be present with value
    [undefined] ([Some None]). *)
Record PartialProject : Type := mkPartialProject {
  pp_id : option Z;
  pp_name : option string;
  pp_description : option (option string);
  pp_owner : option JsVal;
  pp_created : option Timestamp;
  pp_modified : option Timestamp;
  pp_private : option (option bool);
  pp_private_source_assets : option (option bool);
  pp_settings : option JsVal;
  pp_fork_from : option (option Z);
  pp_image_url : option (option string);
  pp_website : option (option string);
  pp_tags : option (option (list string));
  pp_primary_app : option (option Z)
}.

Record PartialAsset : Type := mkPartialAsset {
  pa_id : option Z;
  pa_projectId : option Z;
  pa_branchId : option string;
  pa_name : option string;
  pa_type : option string;
  pa_parent : option Parent;
  pa_file : option JsVal;
  pa_data : option JsVal;
  pa_created : option Timestamp;
  pa_modified : option Timestamp;
  pa_thumbnails : option JsVal
}.

Record PartialScene : Type := mkPartialScene {
  ps_id : option Z;
  ps_projectId : option Z;
  ps_branchId : option string;
  ps_name : option string;
  ps_data : option JsVal;
  ps_created : option Timestamp;
  ps_modified : option Timestamp
}.

(** The empty patch [{}]. *)
Definition emptyPartialProject : PartialProject :=
  mkPartialProject None None None None None None None None None None None None None None.
Definition emptyPartialAsset : PartialAsset :=
  mkPartialAsset None None None None None None None None None None None.
Definition emptyPartialScene : PartialScene :=
  mkPartialScene None None None None None None None.

(** A full record read as a [Partial<...>] (every property present). *)
Definition asPartialProject (p : Project) : PartialProject :=
  {| pp_id := Some (p_id p);
     pp_name := Some (p_name p);
     pp_description := Some (p_description p);
     pp_owner := Some (p_owner p);
     pp_created := Some (p_created p);
     pp_modified := Some (p_modified p);
     pp_private := Some (p_private p);
     pp_private_source_assets := Some (p_private_source_assets p);
     pp_settings := Some (p_settings p);
     pp_fork_from := Some (p_fork_from p);
     pp_image_url := Some (p_image_url p);
     pp_website := Some (p_website p);
     pp_tags := Some (p_tags p);
     pp_primary_app := Some (p_primary_app p) |}.

Definition asPartialAsset (a : Asset) : PartialAsset :=
  {| pa_id := Some (a_id a);
     pa_projectId := Some (a_projectId a);
     pa_branchId := Some (a_branchId a);
     pa_name := Some (a_name a);
     pa_type := Some (a_type a);
     pa_parent := Some (a_parent a);
     pa_file := Some (a_file a);
     pa_data := Some (a_data a);
     pa_created := Some (a_created a);
     pa_modified := Some (a_modified a);
     pa_thumbnails := Some (a_thumbnails a) |}.

Definition asPartialScene (s : Scene) : PartialScene :=
  {| ps_id := Some (s_id s);
     ps_projectId := Some (s_projectId s);
     ps_branchId := Some (s_branchId s);
     ps_name := Some (s_name s);
     ps_data := Some (s_data s);
     ps_created := Some (s_created s);
     ps_modified := Some (s_modified s) |}.

(** [{ ...assetData, projectId: pid }] and [{ ...sceneData, projectId: pid }]. *)
Definition withAssetProjectId (d : PartialAsset) (pid : Z) : PartialAsset :=
  {| pa_id := pa_id d;
     pa_projectId := Some pid;
     pa_branchId := pa_branchId d;
     pa_name := pa_name d;
     pa_type := pa_type d;
     pa_parent := pa_parent d;
     pa_file := pa_file d;
     pa_data := pa_data d;
     pa_created := pa_created d;
     pa_modified := pa_modified d;
     pa_thumbnails := pa_thumbnails d |}.

Definition withSceneProjectId (d : PartialScene) (pid : Z) : PartialScene :=
  {| ps_id := ps_id d;
     ps_projectId := Some pid;
     ps_branchId := ps_branchId d;
     ps_name := ps_name d;
     ps_data := ps_data d;
     ps_created := ps_created d;
     ps_modified := ps_modified d |}.

(** ** The database and the manager *)

(** The object stores the operations below touch.  Keys of [projects],
    [assets] and [scenes] are the records' [id] ([keyPath: 'id']). *)
Record DB : Type := mkDB {
  projects : gmap Z Project;
  assets : gmap Z Asset;
  scenes : gmap Z Scene;
  metadata : gmap string Z
}.

(** The fields of [LocalStorageManager].  [initPromise] is [true] once
    [init] has run; the database handle [db] is set from then on. *)
Record Manager : Type := mkManager {
  initPromise : bool;
  nextProjectId : Z;
  nextAssetId : Z;
  nextSceneId : Z
}.

(** A freshly constructed manager (the class field initialisers). *)
Definition newManager : Manager :=
  {| initPromise := false;
     nextProjectId := 1000;
     nextAssetId := 1000;
     nextSceneId := 1000 |}.

Record World : Type := mkWorld {
  mgr : Manager;
  idb : DB;
  ticks : nat
}.

(** A database on which [onupgradeneeded] has just created the stores. *)
Definition emptyDB : DB := mkDB ∅ ∅ ∅ ∅.

Definition newWorld : World := mkWorld newManager emptyDB 0%nat.

(** What a rejected operation carries: an [Error] or a [TypeError] with
    its message, or [TransactionError] for whatever [transaction.error]
    holds when [onerror] runs. *)
Inductive Error : Type :=
| JsError (message : string)
| TypeError (message : string)
| TransactionError.

Inductive Result (A : Type) : Type :=
| Ok (a : A)
| Err (e : Error).
Arguments Ok {A} a.
Arguments Err {A} e.

(** An asynchronous operation of the manager. *)
Definition M (A : Type) : Type := World → Result A * World.

#[global] Instance M_ret : MRet M := λ A a w, (Ok a, w).

(** [await c] followed by [k]: a rejection of [c] propagates, keeping the
    state [c] left behind. *)
#[global] Instance M_bind : MBind M := λ A B k c w,
  match c w with
  | (Ok a, w') => k a w'
  | (Err e, w') => (Err e, w')
  end.

Definition throw {A} (e : Error) : M A := λ w, (Err e, w).

(** [for (const x of xs) { await f(x) }], keeping the results. *)
Fixpoint forEach {A B} (f : A → M B) (xs : list A) : M (list B) :=
  match xs with
  | [] => mret []
  | x :: xs' => y ← f x; ys ← forEach f xs'; mret (y :: ys)
  end.

Definition modify_db (f : DB → DB) : M unit :=
  fun w => (Ok tt, mkWorld (mgr w) (f (idb w)) (ticks w)).

Definition read_db {A} (f : DB → A) : M A :=
  fun w => (Ok (f (idb w)), w).

Definition modify_mgr (f : Manager → Manager) : M unit :=
  fun w => (Ok tt, mkWorld (f (mgr w)) (idb w) (ticks w)).

(** ** Object-store primitives *)

(** Entries of a store are ordered by primary key. *)
Definition key_le {R : Type} (x y : Z * R) : Prop := x.1 ≤ y.1.

#[global] Instance key_le_dec {R : Type} (x y : Z * R) : Decision (key_le x y).
Proof. unfold key_le. apply _. Defined.

Section ObjectStore.
Context {R : Type}.
Variable key : R → Z.
Variable owner : R → Z.

(** [store.add(r)]: fails on an existing key. *)
Definition store_add (r : R) (t : gmap Z R) : option (gmap Z R) :=
  match t !! key r with
  | Some _ => None
  | None => Some (<[key r := r]> t)
  end.

(** [store.put(r)]: insert or overwrite. *)
Definition store_put (r : R) (t : gmap Z R) : gmap Z R := <[key r := r]> t.

(** The entries the [projectId] index holds under [IDBKeyRange.only(pid)],
    in ascending order of primary key. *)
Definition index_only (pid : Z) (t : gmap Z R) : list (Z * R) :=
  merge_sort key_le (filter (λ kv, owner kv.2 = pid) (map_to_list t)).

(** [index.getAll(IDBKeyRange.only(pid))]. *)
Definition index_getAll (pid : Z) (t : gmap Z R) : list R :=
  (index_only pid t).*2.

(** The cursor loop [if (cursor) { cursor.delete(); cursor.continue(); }]
    over [index.openCursor(IDBKeyRange.only(pid))]. *)
Definition cursor_delete_all (pid : Z) (t : gmap Z R) : gmap Z R :=
  foldl (λ acc kv, delete kv.1 acc) t (index_only pid t).

End ObjectStore.

(** ** The storage manager *)

Definition set_projects (t : gmap Z Project) (d : DB) : DB :=
  mkDB t (assets d) (scenes d) (metadata d).
Definition set_assets (t : gmap Z Asset) (d : DB) : DB :=
  mkDB (projects d) t (scenes d) (metadata d).
Definition set_scenes (t : gmap Z Scene) (d : DB) : DB :=
  mkDB (projects d) (assets d) t (metadata d).
Definition set_metadata (t : gmap string Z) (d : DB) : DB :=
  mkDB (projects d) (assets d) (scenes d) t.

(** [loadMetadata]: a counter is replaced only when its row exists. *)
Definition loadMetadata : M unit := λ w,
  let md := metadata (idb w) in
  let m := mgr w in
  (Ok tt,
   mkWorld
     {| initPromise := initPromise m;
        nextProjectId := default (nextProjectId m) (md !! "nextProjectId");
        nextAssetId := default (nextAssetId m) (md !! "nextAssetId");
        nextSceneId := default (nextSceneId m) (md !! "nextSceneId") |}
     (idb w) (ticks w)).

(** [init]: the open-and-load sequence runs once; later calls return the
    cached promise. *)
Definition init : M unit := λ w,
  if initPromise (mgr w) then (Ok tt, w)
  else
    (modify_mgr (λ m, mkManager true (nextProjectId m) (nextAssetId m) (nextSceneId m));;
     loadMetadata) w.

(** The three [store.put({ key, value })] of [saveMetadata]. *)
Definition putCounters (m : Manager) (md : gmap string Z) : gmap string Z :=
  <["nextSceneId" := nextSceneId m]>
    (<["nextAssetId" := nextAssetId m]>
       (<["nextProjectId" := nextProjectId m]> md)).

Definition saveMetadata : M unit := λ w,
  modify_db (λ d, set_metadata (putCounters (mgr w) (metadata d)) d) w.

(** The post-increments [this.nextProjectId++] etc. on the manager. *)
Definition incrProjectId (m : Manager) : Manager :=
  mkManager (initPromise m) (nextProjectId m + 1) (nextAssetId m) (nextSceneId m).
Definition incrAssetId (m : Manager) : Manager :=
  mkManager (initPromise m) (nextProjectId m) (nextAssetId m + 1) (nextSceneId m).
Definition incrSceneId (m : Manager) : Manager :=
  mkManager (initPromise m) (nextProjectId m) (nextAssetId m) (nextSceneId m + 1).

Definition getNextProjectId : M Z := λ w,
  (Ok (nextProjectId (mgr w)), mkWorld (incrProjectId (mgr w)) (idb w) (ticks w)).

Definition getNextAssetId : M Z := λ w,
  (Ok (nextAssetId (mgr w)), mkWorld (incrAssetId (mgr w)) (idb w) (ticks w)).

Definition getNextSceneId : M Z := λ w,
  (Ok (nextSceneId (mgr w)), mkWorld (incrSceneId (mgr w)) (idb w) (ticks w)).

(** The object literals of [createProject], [createAsset] and
    [createScene], given the issued id and the two clock readings. *)
Definition makeProject (id : Z) (created modified : Timestamp)
    (data : PartialProject) : Project :=
  {| p_id := id;
     p_name := str_or (pp_name data) "Untitled Project";
     p_description := Some (str_or (mjoin (pp_description data)) "");
     p_owner := any_or (pp_owner data)
                  (JObj [("id", JNum 1); ("username", JStr "local")]);
     p_created := created;
     p_modified := modified;
     p_private := Some (default false (mjoin (pp_private data)));
     p_private_source_assets :=
       Some (default false (mjoin (pp_private_source_assets data)));
     p_settings := any_or (pp_settings data) (JObj []);
     p_fork_from := mjoin (pp_fork_from data);
     p_image_url := mjoin (pp_image_url data);
     p_website := mjoin (pp_website data);
     p_tags := Some (default [] (mjoin (pp_tags data)));
     p_primary_app := mjoin (pp_primary_app data) |}.

Definition makeAsset (id : Z) (created modified : Timestamp)
    (data : PartialAsset) : Asset :=
  {| a_id := id;
     a_projectId := num_or (pa_projectId data) 0;
     a_branchId := str_or (pa_branchId data) "master";
     a_name := str_or (pa_name data) "Untitled Asset";
     a_type := str_or (pa_type data) "folder";
     a_parent := parent_or_null (pa_parent data);
     a_file := default JUndefined (pa_file data);
     a_data := any_or (pa_data data) (JObj []);
     a_created := created;
     a_modified := modified;
     a_thumbnails := default JUndefined (pa_thumbnails data) |}.

Definition makeScene (id : Z) (created modified : Timestamp)
    (data : PartialScene) : Scene :=
  {| s_id := id;
     s_projectId := num_or (ps_projectId data) 0;
     s_branchId := str_or (ps_branchId data) "master";
     s_name := str_or (ps_name data) "Untitled Scene";
     s_data := any_or (ps_data data) (JObj []);
     s_created := created;
     s_modified := modified |}.

(** The object literals [{ ...record, ...data, id, modified }] of the
    three updates. *)
Definition mergeProject (project : Project) (data : PartialProject)
    (projectId : Z) (modified : Timestamp) : Project :=
  {| p_id := projectId;
     p_name := default (p_name project) (pp_name data);
     p_description := default (p_description project) (pp_description data);
     p_owner := default (p_owner project) (pp_owner data);
     p_created := default (p_created project) (pp_created data);
     p_modified := modified;
     p_private := default (p_private project) (pp_private data);
     p_private_source_assets :=
       default (p_private_source_assets project) (pp_private_source_assets data);
     p_settings := default (p_settings project) (pp_settings data);
     p_fork_from := default (p_fork_from project) (pp_fork_from data);
     p_image_url := default (p_image_url project) (pp_image_url data);
     p_website := default (p_website project) (pp_website data);
     p_tags := default (p_tags project) (pp_tags data);
     p_primary_app := default (p_primary_app project) (pp_primary_app data) |}.

Definition mergeAsset (asset : Asset) (data : PartialAsset)
    (assetId : Z) (modified : Timestamp) : Asset :=
  {| a_id := assetId;
     a_projectId := default (a_projectId asset) (pa_projectId data);
     a_branchId := default (a_branchId asset) (pa_branchId data);
     a_name := default (a_name asset) (pa_name data);
     a_type := default (a_type asset) (pa_type data);
     a_parent := default (a_parent asset) (pa_parent data);
     a_file := default (a_file asset) (pa_file data);
     a_data := default (a_data asset) (pa_data data);
     a_created := default (a_created asset) (pa_created data);
     a_modified := modified;
     a_thumbnails := default (a_thumbnails asset) (pa_thumbnails data) |}.

Definition mergeScene (scene : Scene) (data : PartialScene)
    (sceneId : Z) (modified : Timestamp) : Scene :=
  {| s_id := sceneId;
     s_projectId := default (s_projectId scene) (ps_projectId data);
     s_branchId := default (s_branchId scene) (ps_branchId data);
     s_name := default (s_name scene) (ps_name data);
     s_data := default (s_data scene) (ps_data data);
     s_created := default (s_created scene) (ps_created data);
     s_modified := modified |}.

(** The transaction [store.add(r)] on one table: the outcome is the error
    the transaction ends with, if any; a failed [add] leaves the table as it
    was. *)
Definition tx_add {R} (key : R → Z) (get : DB → gmap Z R)
    (set : gmap Z R → DB → DB) (r : R) : M (option Error) := λ w,
  match store_add key r (get (idb w)) with
  | Some t => (Ok None, mkWorld (mgr w) (set t (idb w)) (ticks w))
  | None => (Ok (Some TransactionError), w)
  end.

(** [transaction.oncomplete = () => resolve(r)] and
    [transaction.onerror = () => reject(transaction.error)]. *)
Definition settle {A} (outcome : option Error) (r : A) : M A :=
  match outcome with
  | None => mret r
  | Some e => throw e
  end.

Section Manager.
Variable clock : nat → Timestamp.

(** [new Date().toISOString()]. *)
Definition now : M Timestamp := λ w,
  (Ok (clock (ticks w)), mkWorld (mgr w) (idb w) (S (ticks w))).

(** *** Projects *)

Definition createProject (data : PartialProject) : M Project :=
  init;;
  id ← getNextProjectId;
  created ← now;
  modified ← now;
  let project := makeProject id created modified data in
  outcome ← tx_add p_id projects set_projects project;
  saveMetadata;;
  settle outcome project.

(** [createProject(undefined)]: the object literal issues the id, then
    reading [data.name] throws. *)
Definition createProject_undefined : M Project :=
  init;;
  _ ← getNextProjectId;
  throw (TypeError "Cannot read properties of undefined (reading 'name')").

Definition getProject (projectId : Z) : M (option Project) :=
  init;;
  read_db (λ d, projects d !! projectId).

Definition updateProject (projectId : Z) (data : PartialProject) : M Project :=
  init;;
  found ← getProject projectId;
  match found with
  | None => throw (JsError "Project not found")
  | Some project =>
      modified ← now;
      let updatedProject := mergeProject project data projectId modified in
      modify_db (λ d, set_projects (store_put p_id updatedProject (projects d)) d);;
      mret updatedProject
  end.

(** One transaction over the three stores: the project row, then a cursor
    over the [projectId] index of [assets] and of [scenes]. *)
Definition deleteProject (projectId : Z) : M unit :=
  init;;
  modify_db (λ d,
    mkDB (delete projectId (projects d))
         (cursor_delete_all a_projectId projectId (assets d))
         (cursor_delete_all s_projectId projectId (scenes d))
         (metadata d)).

(** [store.getAll()]: every record, in key order. *)
Definition listProjects : M (list Project) :=
  init;;
  read_db (λ d, (merge_sort key_le (map_to_list (projects d))).*2).

(** *** Assets *)

Definition createAsset (data : PartialAsset) : M Asset :=
  init;;
  id ← getNextAssetId;
  created ← now;
  modified ← now;
  let asset := makeAsset id created modified data in
  outcome ← tx_add a_id assets set_assets asset;
  saveMetadata;;
  settle outcome asset.

Definition getAsset (assetId : Z) : M (option Asset) :=
  init;;
  read_db (λ d, assets d !! assetId).

Definition updateAsset (assetId : Z) (data : PartialAsset) : M Asset :=
  init;;
  found ← getAsset assetId;
  match found with
  | None => throw (JsError "Asset not found")
  | Some asset =>
      modified ← now;
      let updatedAsset := mergeAsset asset data assetId modified in
      modify_db (λ d, set_assets (store_put a_id updatedAsset (assets d)) d);;
      mret updatedAsset
  end.

Definition deleteAsset (assetId : Z) : M unit :=
  init;;
  modify_db (λ d, set_assets (delete assetId (assets d)) d).

(** [if (branchId)] narrows the index result by an in-memory filter; an
    absent or empty branch name leaves it as it is. *)
Definition listAssets (projectId : Z) (branchId : option string) : M (list Asset) :=
  init;;
  read_db (λ d,
    let results := index_getAll a_projectId projectId (assets d) in
    match branchId with
    | Some b => if String.eqb b "" then results
                else filter (λ asset, a_branchId asset = b) results
    | None => results
    end).

(** *** Scenes *)

Definition createScene (data : PartialScene) : M Scene :=
  init;;
  id ← getNextSceneId;
  created ← now;
  modified ← now;
  let scene := makeScene id created modified data in
  outcome ← tx_add s_id scenes set_scenes scene;
  saveMetadata;;
  settle outcome scene.

Definition getScene (sceneId : Z) : M (option Scene) :=
  init;;
  read_db (λ d, scenes d !! sceneId).

Definition updateScene (sceneId : Z) (data : PartialScene) : M Scene :=
  init;;
  found ← getScene sceneId;
  match found with
  | None => throw (JsError "Scene not found")
  | Some scene =>
      modified ← now;
      let updatedScene := mergeScene scene data sceneId modified in
      modify_db (λ d, set_scenes (store_put s_id updatedScene (scenes d)) d);;
      mret updatedScene
  end.

Definition deleteScene (sceneId : Z) : M unit :=
  init;;
  modify_db (λ d, set_scenes (delete sceneId (scenes d)) d).

Definition listScenes (projectId : Z) (branchId : option string) : M (list Scene) :=
  init;;
  read_db (λ d,
    let results := index_getAll s_projectId projectId (scenes d) in
    match branchId with
    | Some b => if String.eqb b "" then results
                else filter (λ scene, s_branchId scene = b) results
    | None => results
    end).

(** *** Export, import, clear *)

(** The object [exportProject] returns. *)
Record Snapshot : Type := mkSnapshot {
  snap_project : option Project;
  snap_assets : list Asset;
  snap_scenes : list Scene;
  snap_exportedAt : Timestamp
}.

(** The argument of [importProject]: [project] may be [undefined], and
    [assets] / [scenes] may be missing or not arrays ([None]). *)
Record ImportData : Type := mkImportData {
  d_project : option PartialProject;
  d_assets : option (list PartialAsset);
  d_scenes : option (list PartialScene)
}.

(** A snapshot handed back to [importProject]. *)
Definition asImportData (s : Snapshot) : ImportData :=
  {| d_project := asPartialProject <$> snap_project s;
     d_assets := Some (asPartialAsset <$> snap_assets s);
     d_scenes := Some (asPartialScene <$> snap_scenes s) |}.

Definition exportProject (projectId : Z) : M Snapshot :=
  init;;
  project ← getProject projectId;
  assets ← listAssets projectId None;
  scenes ← listScenes projectId None;
  exportedAt ← now;
  mret (mkSnapshot project assets scenes exportedAt).

Definition importProject (data : ImportData) : M Project :=
  init;;
  project ← match d_project data with
            | Some pd => createProject pd
            | None => createProject_undefined
            end;
  match d_assets data with
  | Some assetList =>
      forEach (λ assetData, createAsset (withAssetProjectId assetData (p_id project)))
        assetList;; mret tt
  | None => mret tt
  end;;
  match d_scenes data with
  | Some sceneList =>
      forEach (λ sceneData, createScene (withSceneProjectId sceneData (p_id project)))
        sceneList;; mret tt
  | None => mret tt
  end;;
  mret project.

Definition clearAll : M unit :=
  init;;
  modify_db (λ _, emptyDB);;
  modify_mgr (λ m, mkManager (initPromise m) 1000 1000 1000).

End Manager.

(** A reload of the page: the manager object is constructed anew, the
    database stays. *)
Definition restart (w : World) : World :=
  mkWorld newManager (idb w) (ticks w).

(** ** The [LocalAjax] adapter

    One adapter object together with the part of the event loop it uses.
    [handlers] is the field of the class.  [promise] is the state of the
    wrapped promise ([None] while pending) and [timers] the callbacks
    [execute] has handed to [setTimeout].  [emitted] and [calls] are a
    record of what has happened (every [emit] and every handler
    invocation, oldest first); they are not fields of the class. *)
Module LocalAjax.

(** A subscriber: [h_id] names the function; [h_throws] tells whether
    invoking it raises an exception. *)
Record Handler : Type := mkHandler {
  h_id : nat;
  h_throws : bool
}.

Inductive Settlement : Type :=
| Resolved (result : JsVal)
| Rejected (error : JsVal).

(** The closure [() => { this.emit(event, ...args) }] queued for [due]. *)
Record Timer : Type := mkTimer {
  due : nat;
  t_event : string;
  t_args : list JsVal
}.

Record Call : Type := mkCall {
  c_handler : Handler;
  c_args : list JsVal
}.

Record Emission : Type := mkEmission {
  e_time : nat;
  e_event : string;
  e_args : list JsVal
}.

Record State : Type := mkState {
  handlers : gmap string (list Handler);
  promise : option Settlement;
  timers : list Timer;
  time : nat;
  emitted : list Emission;
  calls : list Call
}.

(** [new LocalAjax(promise)] at time [t0]: no handlers, and [execute] runs
    up to its [await]. *)
Definition construct (t0 : nat) : State :=
  mkState ∅ None [] t0 [] [].

(** The property names every object inherits from [Object.prototype]. *)
Definition objectPrototypeKeys : list string :=
  ["constructor"; "__defineGetter__"; "__defineSetter__"; "hasOwnProperty";
   "__lookupGetter__"; "__lookupSetter__"; "isPrototypeOf";
   "propertyIsEnumerable"; "toString"; "toLocaleString"; "valueOf"; "__proto__"].

(** [on(event, handler)]: creates the list on first use and appends.  For
    an inherited property name [this.handlers[event]] is a value without
    [push]: the call throws and stores nothing. *)
Definition on (event : string) (handler : Handler) (st : State) : State :=
  if bool_decide (event ∈ objectPrototypeKeys) then st
  else
    let current :=
      match handlers st !! event with
      | Some hs => hs
      | None => []
      end in
    mkState (<[event := current ++ [handler]]> (handlers st))
      (promise st) (timers st) (time st) (emitted st) (calls st).

(** [hs.forEach(handler => handler(...args))]: an exception of a handler
    ends the loop. *)
Fixpoint forEach_call (hs : list Handler) (args : list JsVal) : list Call :=
  match hs with
  | [] => []
  | h :: hs' =>
      mkCall h args :: (if h_throws h then [] else forEach_call hs' args)
  end.

(** [emit(event, ...args)]; [execute] calls it with "load" and "error"
    only. *)
Definition emit (event : string) (args : list JsVal) (st : State) : State :=
  let invoked :=
    match handlers st !! event with
    | Some hs => forEach_call hs args
    | None => []
    end in
  mkState (handlers st) (promise st) (timers st) (time st)
    (emitted st ++ [mkEmission (time st) event args])
    (calls st ++ invoked).

(** [setTimeout(callback, delay)]. *)
Definition setTimeout (event : string) (args : list JsVal) (delay : nat)
    (st : State) : State :=
  mkState (handlers st) (promise st)
    (timers st ++ [mkTimer (time st + delay) event args])
    (time st) (emitted st) (calls st).

(** The rest of [execute] once [await this.promise] returns or throws. *)
Definition execute (s : Settlement) (st : State) : State :=
  match s with
  | Resolved result => setTimeout "load" [JNum 200; result] 10 st
  | Rejected error => setTimeout "error" [JNum 500; error] 10 st
  end.

(** What the environment does to the adapter. *)
Inductive Action : Type :=
| CallOn (event : string) (handler : Handler)
| PromiseSettles (s : Settlement)
| TimePasses (dt : nat)
| RunDueTimers.

(** The event loop runs the callbacks whose time has come, oldest first. *)
Definition run_due_timers (st : State) : State :=
  let ready := filter (λ t, (due t ≤ time st)%nat) (timers st) in
  let waiting := filter (λ t, ¬ (due t ≤ time st)%nat) (timers st) in
  foldl (λ acc t, emit (t_event t) (t_args t) acc)
    (mkState (handlers st) (promise st) waiting (time st) (emitted st) (calls st))
    ready.

(** A promise settles once; [execute] resumes when it does. *)
Definition step (st : State) (a : Action) : State :=
  match a with
  | CallOn event handler => on event handler st
  | PromiseSettles s =>
      match promise st with
      | Some _ => st
      | None =>
          execute s
            (mkState (handlers st) (Some s) (timers st) (time st)
               (emitted st) (calls st))
      end
  | TimePasses dt =>
      mkState (handlers st) (promise st) (timers st) (time st + dt)
        (emitted st) (calls st)
  | RunDueTimers => run_due_timers st
  end.

Definition run (schedule : list Action) (st : State) : State :=
  foldl step st schedule.

(** Time that passes during a schedule. *)
Fixpoint elapsed (schedule : list Action) : nat :=
  match schedule with
  | [] => 0
  | TimePasses dt :: rest => dt + elapsed rest
  | _ :: rest => elapsed rest
  end.

Definition is_settle (a : Action) : bool :=
  match a with
  | PromiseSettles _ => true
  | _ => false
  end.

(** The handler invocations one timer callback makes. *)
Definition calls_of (hs : gmap string (list Handler)) (t : Timer) : list Call :=
  match hs !! t_event t with
  | Some l => forEach_call l (t_args t)
  | None => []
  end.

End LocalAjax.

(** ** State predicates *)

(** Every key of the table is below the counter [n]. *)
Definition keys_below {R} (t : gmap Z R) (n : Z) : Prop :=
  ∀ k r, t !! k = Some r → k < n.

(** A record sits under its own [id] ([keyPath: 'id']). *)
Definition keyed_by {R} (key : R → Z) (t : gmap Z R) : Prop :=
  ∀ k r, t !! k = Some r → key r = k.

(** A world of a running manager: [init] has completed, every stored id has
    been issued by the counter of its kind, and records sit under their
    ids. *)
Record wf (w : World) : Prop := mk_wf {
  wf_ready : initPromise (mgr w) = true;
  wf_projects : keys_below (projects (idb w)) (nextProjectId (mgr w));
  wf_assets : keys_below (assets (idb w)) (nextAssetId (mgr w));
  wf_scenes : keys_below (scenes (idb w)) (nextSceneId (mgr w));
  wf_project_keys : keyed_by p_id (projects (idb w));
  wf_asset_keys : keyed_by a_id (assets (idb w));
  wf_scene_keys : keyed_by s_id (scenes (idb w))
}.

(** The persisted counters are those in memory: a reload followed by
    [init] rebuilds the same manager. *)
Definition durable (w : World) : Prop :=
  mgr (init (restart w)).2 = mgr w.

(** The range on which [n + 1] is exact for a JavaScript number. *)
Definition exact_int (n : Z) : Prop := 0 ≤ n < 2 ^ 53.

(** The world a successful create leaves: the counter bumped and saved,
    the record added, two clock readings consumed. *)
Definition afterCreateProject (p : Project) (w : World) : World :=
  mkWorld (incrProjectId (mgr w))
    (set_metadata (putCounters (incrProjectId (mgr w)) (metadata (idb w)))
       (set_projects (<[p_id p := p]> (projects (idb w))) (idb w)))
    (S (S (ticks w))).

Definition afterCreateAsset (a : Asset) (w : World) : World :=
  mkWorld (incrAssetId (mgr w))
    (set_metadata (putCounters (incrAssetId (mgr w)) (metadata (idb w)))
       (set_assets (<[a_id a := a]> (assets (idb w))) (idb w)))
    (S (S (ticks w))).

Definition afterCreateScene (s : Scene) (w : World) : World :=
  mkWorld (incrSceneId (mgr w))
    (set_metadata (putCounters (incrSceneId (mgr w)) (metadata (idb w)))
       (set_scenes (<[s_id s := s]> (scenes (idb w))) (idb w)))
    (S (S (ticks w))).

(** What a run of [createAsset] over [ds], started in [w], has done when it
    returns the records [rs] in the world [w']. *)
Record AssetsCreated (clock : nat → Timestamp) (ds : list PartialAsset)
    (w : World) (rs : list Asset) (w' : World) : Prop := mk_AssetsCreated {
  ac_wf : wf w';
  ac_mgr : mgr w' = mkManager (initPromise (mgr w)) (nextProjectId (mgr w))
                      (nextAssetId (mgr w) + Z.of_nat (length ds)) (nextSceneId (mgr w));
  ac_projects : projects (idb w') = projects (idb w);
  ac_scenes : scenes (idb w') = scenes (idb w);
  ac_ticks : ticks w' = (ticks w + 2 * length ds)%nat;
  ac_durable : ds ≠ [] ∨ durable w → durable w';
  ac_length : length rs = length ds;
  ac_results : ∀ (i : nat) d, ds !! i = Some d →
    rs !! i = Some (makeAsset (nextAssetId (mgr w) + Z.of_nat i) (clock (ticks w + 2 * i)%nat)
                      (clock (S (ticks w + 2 * i))) d);
  ac_stored : ∀ r, r ∈ rs → assets (idb w') !! a_id r = Some r;
  ac_kept : ∀ k r, assets (idb w) !! k = Some r → assets (idb w') !! k = Some r;
  ac_size : size (assets (idb w')) = (size (assets (idb w)) + length ds)%nat;
  ac_index : ∀ pid,
    length (index_getAll a_projectId pid (assets (idb w')))
    = (length (filter (λ r, a_projectId r = pid) rs)
       + length (index_getAll a_projectId pid (assets (idb w))))%nat
}.

Record ScenesCreated (clock : nat → Timestamp) (ds : list PartialScene)
    (w : World) (rs : list Scene) (w' : World) : Prop := mk_ScenesCreated {
  sc_wf : wf w';
  sc_mgr : mgr w' = mkManager (initPromise (mgr w)) (nextProjectId (mgr w))
                      (nextAssetId (mgr w))
                      (nextSceneId (mgr w) + Z.of_nat (length ds));
  sc_projects : projects (idb w') = projects (idb w);
  sc_assets : assets (idb w') = assets (idb w);
  sc_ticks : ticks w' = (ticks w + 2 * length ds)%nat;
  sc_durable : ds ≠ [] ∨ durable w → durable w';
  sc_length : length rs = length ds;
  sc_results : ∀ (i : nat) d, ds !! i = Some d →
    rs !! i = Some (makeScene (nextSceneId (mgr w) + Z.of_nat i) (clock (ticks w + 2 * i)%nat)
                      (clock (S (ticks w + 2 * i))) d);
  sc_stored : ∀ r, r ∈ rs → scenes (idb w') !! s_id r = Some r;
  sc_kept : ∀ k r, scenes (idb w) !! k = Some r → scenes (idb w') !! k = Some r;
  sc_size : size (scenes (idb w')) = (size (scenes (idb w)) + length ds)%nat;
  sc_index : ∀ pid,
    length (index_getAll s_projectId pid (scenes (idb w')))
    = (length (filter (λ r, s_projectId r = pid) rs)
       + length (index_getAll s_projectId pid (scenes (idb w))))%nat
}.

Record ProjectsCreated (clock : nat → Timestamp) (ds : list PartialProject)
    (w : World) (rs : list Project) (w' : World) : Prop := mk_ProjectsCreated {
  pc_wf : wf w';
  pc_mgr : mgr w' = mkManager (initPromise (mgr w))
                      (nextProjectId (mgr w) + Z.of_nat (length ds))
                      (nextAssetId (mgr w)) (nextSceneId (mgr w));
  pc_assets : assets (idb w') = assets (idb w);
  pc_scenes : scenes (idb w') = scenes (idb w);
  pc_ticks : ticks w' = (ticks w + 2 * length ds)%nat;
  pc_durable : ds ≠ [] ∨ durable w → durable w';
  pc_length : length rs = length ds;
  pc_results : ∀ (i : nat) d, ds !! i = Some d →
    rs !! i = Some (makeProject (nextProjectId (mgr w) + Z.of_nat i) (clock (ticks w + 2 * i)%nat)
                      (clock (S (ticks w + 2 * i))) d);
  pc_stored : ∀ r, r ∈ rs → projects (idb w') !! p_id r = Some r;
  pc_kept : ∀ k r, projects (idb w) !! k = Some r → projects (idb w') !! k = Some r;
  pc_size : size (projects (idb w')) = (size (projects (idb w)) + length ds)%nat
}.

(** [wf] can be decided by running through the three stores. *)
#[global] Instance keys_below_dec {R} (t : gmap Z R) (n : Z) :
  Decision (keys_below t n).
Proof.
  change (Decision (map_Forall (λ k (_ : R), k < n) t)).
  apply map_Forall_dec. intros i x. apply Z.lt_dec.
Defined.

#[global] Instance keyed_by_dec {R} (key : R → Z) (t : gmap Z R) :
  Decision (keyed_by key t).
Proof.
  change (Decision (map_Forall (λ k r, key r = k) t)).
  apply map_Forall_dec. intros i x. apply Z.eq_dec.
Defined.

#[global] Instance wf_dec (w : World) : Decision (wf w).
Proof.
  refine (cast_if (decide (initPromise (mgr w) = true
         ∧ keys_below (projects (idb w)) (nextProjectId (mgr w))
         ∧ keys_below (assets (idb w)) (nextAssetId (mgr w))
         ∧ keys_below (scenes (idb w)) (nextSceneId (mgr w))
         ∧ keyed_by p_id (projects (idb w))
         ∧ keyed_by a_id (assets (idb w))
         ∧ keyed_by s_id (scenes (idb w))))).
  - match goal with H : _ ∧ _ |- _ => by destruct H as (? & ? & ? & ? & ? & ? & ?) end.
  - match goal with H : ¬ _ |- _ => intros [? ? ? ? ? ? ?]; by apply H end.
Defined.

(** ** Requests *)

(** A request the editor can make of the manager. *)
Inductive Request : Type :=
| ReqCreateProject (d : PartialProject)
| ReqGetProject (x : Z)
| ReqUpdateProject (x : Z) (d : PartialProject)
| ReqDeleteProject (x : Z)
| ReqListProjects
| ReqCreateAsset (d : PartialAsset)
| ReqGetAsset (x : Z)
| ReqUpdateAsset (x : Z) (d : PartialAsset)
| ReqDeleteAsset (x : Z)
| ReqListAssets (x : Z) (b : option string)
| ReqCreateScene (d : PartialScene)
| ReqGetScene (x : Z)
| ReqUpdateScene (x : Z) (d : PartialScene)
| ReqDeleteScene (x : Z)
| ReqListScenes (x : Z) (b : option string)
| ReqExportProject (x : Z)
| ReqImportProject (d : ImportData)
| ReqClearAll
| ReqReload.

(** A page reload followed by the [init] every entry point starts with. *)
Definition reload (w : World) : World := (init (restart w)).2.

(** The world a request leaves behind, whether it resolves or rejects. *)
Definition serve (clock : nat → Timestamp) (r : Request) (w : World) : World :=
  match r with
  | ReqCreateProject d => (createProject clock d w).2
  | ReqGetProject x => (getProject x w).2
  | ReqUpdateProject x d => (updateProject clock x d w).2
  | ReqDeleteProject x => (deleteProject x w).2
  | ReqListProjects => (listProjects w).2
  | ReqCreateAsset d => (createAsset clock d w).2
  | ReqGetAsset x => (getAsset x w).2
  | ReqUpdateAsset x d => (updateAsset clock x d w).2
  | ReqDeleteAsset x => (deleteAsset x w).2
  | ReqListAssets x b => (listAssets x b w).2
  | ReqCreateScene d => (createScene clock d w).2
  | ReqGetScene x => (getScene x w).2
  | ReqUpdateScene x d => (updateScene clock x d w).2
  | ReqDeleteScene x => (deleteScene x w).2
  | ReqListScenes x b => (listScenes x b w).2
  | ReqExportProject x => (exportProject clock x w).2
  | ReqImportProject d => (importProject clock d w).2
  | ReqClearAll => (clearAll w).2
  | ReqReload => reload w
  end.

(** The manager is well-formed, and stays so across a reload. *)
Definition consistent (w : World) : Prop := wf w ∧ wf (reload w).

(** ** Data used in the examples *)

(** The manager after [init] on a database that was just created. *)
Definition readyWorld : World :=
  mkWorld (mkManager true 1000 1000 1000) emptyDB 0%nat.

(** A clock that advances by one millisecond between any two readings. *)
Definition tickingClock (n : nat) : Timestamp :=
  match n with
  | 0%nat => "2026-01-07T10:00:00.000Z"
  | 1%nat => "2026-01-07T10:00:00.001Z"
  | 2%nat => "2026-01-07T10:00:00.002Z"
  | 3%nat => "2026-01-07T10:00:00.003Z"
  | 4%nat => "2026-01-07T10:00:00.004Z"
  | 5%nat => "2026-01-07T10:00:00.005Z"
  | _ => "2026-01-07T10:00:00.006Z"
  end.

(** A clock that stands still. *)
Definition frozenClock (n : nat) : Timestamp := "2026-01-07T10:00:00.000Z".

(** A world holding one Project, created at the first two clock readings. *)
Definition oneProjectWorld : World :=
  (createProject tickingClock emptyPartialProject newWorld).2.

(** The patch [{ name: "Renamed" }]. *)
Definition renamePatch : PartialProject :=
  mkPartialProject None (Some "Renamed") None None None None None None None None
    None None None None.

(** The patch [{ created: "1999-12-31T23:59:59.999Z" }]. *)
Definition backdatePatch : PartialProject :=
  mkPartialProject None None None None (Some "1999-12-31T23:59:59.999Z") None None
    None None None None None None None.

(** A snapshot as [JSON.parse] hands it to [importProject]: project "Demo",
    folder "Models" with id 5, "Hero.glb" with id 6 under it, scene "Main"
    with id 9. *)
Definition demoProjectData : PartialProject :=
  mkPartialProject (Some 7) (Some "Demo") None None None None None None None None
    None None None None.

Definition demoModels : PartialAsset :=
  mkPartialAsset (Some 5) (Some 7) (Some "master") (Some "Models") (Some "folder")
    (Some ParentNull) None None None None None.

Definition demoHero : PartialAsset :=
  mkPartialAsset (Some 6) (Some 7) (Some "master") (Some "Hero.glb") (Some "model")
    (Some (ParentId 5)) None None None None None.

Definition demoMain : PartialScene :=
  mkPartialScene (Some 9) (Some 7) (Some "master") (Some "Main") None None None.

Definition demoData : ImportData :=
  mkImportData (Some demoProjectData) (Some [demoModels; demoHero]) (Some [demoMain]).

(** A world holding one Asset, stored under id 1000 with name "Old". *)
Definition oneAssetWorld : World :=
  (createAsset tickingClock
     (mkPartialAsset None None None (Some "Old") None None None None None None None)
     newWorld).2.

(** A snapshot whose only Asset carries the id 1000 and the name "New". *)
Definition collidingData : ImportData :=
  mkImportData (Some demoProjectData)
    (Some [mkPartialAsset (Some 1000) (Some 7) None (Some "New") None None None None
             None None None])
    None.

(** The world after the demo snapshot was imported into a database that was
    just created: Project 1000 "Demo", Assets 1000 and 1001, Scene 1000. *)
Definition demoWorld : World :=
  (importProject tickingClock demoData readyWorld).2.

(** The patch [{ name: "", settings: null }]. *)
Definition blankPatch : PartialProject :=
  mkPartialProject None (Some "") None None None None None None (Some JNull) None
    None None None None.

(** The one-project world after that Project was updated with the blank
    patch. *)
Definition unnamedWorld : World :=
  (updateProject tickingClock 1000 blankPatch oneProjectWorld).2.

(** Two subscribers. *)
Definition onLoad : LocalAjax.Handler := LocalAjax.mkHandler 1 false.
Definition onError : LocalAjax.Handler := LocalAjax.mkHandler 2 false.

(** The scenario of the design document: Project "Demo", folder "Models"
    under it, "Hero.glb" under the folder, then the Assets of the Project
    are listed. *)
Definition demoScenario : M (Asset * list Asset) :=
  demo ← createProject tickingClock demoProjectData;
  models ← createAsset tickingClock
              (mkPartialAsset None (Some (p_id demo)) None (Some "Models") None
                 (Some ParentNull) None None None None None);
  _ ← createAsset tickingClock
         (mkPartialAsset None (Some (p_id demo)) None (Some "Hero.glb") (Some "model")
            (Some (ParentId (a_id models))) None None None None None);
  listed ← listAssets (p_id demo) None;
  mret (models, listed).

(** ** Further predicates and example data *)

(** The three counters are in the range where [n++] is exact. *)
Definition counters_exact (w : World) : Prop :=
  exact_int (nextProjectId (mgr w))
  ∧ exact_int (nextAssetId (mgr w))
  ∧ exact_int (nextSceneId (mgr w)).

(** The patch [{ projectId: q }]. *)
Definition moveAssetPatch (q : Z) : PartialAsset :=
  mkPartialAsset None (Some q) None None None None None None None None None.

(** ** The sample seeder ([src/local/sample-seeder.ts]) *)

(** The [settings] literal of [createBlankProject]. *)
Definition blankSettings : JsVal :=
  JObj [("width", JNum 1280);
        ("height", JNum 720);
        ("useDevicePixelRatio", JBool true);
        ("fillMode", JStr "FILL_WINDOW");
        ("resolutionMode", JStr "AUTO");
        ("antiAlias", JBool true);
        ("vr", JBool false);
        ("layers",
         JObj [("0", JObj [("name", JStr "World"); ("opaqueSortMode", JNum 2);
                           ("transparentSortMode", JNum 3)]);
               ("1", JObj [("name", JStr "Depth"); ("opaqueSortMode", JNum 2);
                           ("transparentSortMode", JNum 3)]);
               ("2", JObj [("name", JStr "Skybox"); ("opaqueSortMode", JNum 0);
                           ("transparentSortMode", JNum 3)]);
               ("3", JObj [("name", JStr "Immediate"); ("opaqueSortMode", JNum 0);
                           ("transparentSortMode", JNum 3)]);
               ("4", JObj [("name", JStr "UI"); ("opaqueSortMode", JNum 1);
                           ("transparentSortMode", JNum 1)])]);
        ("scripts", JArr []);
        ("externalScripts", JArr [])].

(** The [settings] literal of [createSampleProject]. *)
Definition sampleSettings : JsVal :=
  JObj [("width", JNum 1280);
        ("height", JNum 720);
        ("useDevicePixelRatio", JBool true);
        ("fillMode", JStr "FILL_WINDOW");
        ("resolutionMode", JStr "AUTO");
        ("antiAlias", JBool true)].

(** The [data] literal of a sample script Asset. *)
Definition scriptData (name : string) : JsVal :=
  JObj [("scripts", JArr [JObj [("name", JStr name); ("attributes", JArr [])]])].

(** The [data] literal of the sample Scene.  Its two fractional literals,
    [0.118] and [0.1], are not integers and are left as parameters. *)
Definition gameSceneData (grey nearClip : JsVal) : JsVal :=
  JObj [("entities",
         JArr [JObj [("name", JStr "Camera");
                     ("components",
                      JObj [("camera",
                             JObj [("clearColor", JArr [grey; grey; grey; JNum 1]);
                                   ("farClip", JNum 1000);
                                   ("nearClip", nearClip);
                                   ("fov", JNum 45)])]);
                     ("position", JArr [JNum 0; JNum 0; JNum 10])];
               JObj [("name", JStr "Light");
                     ("components",
                      JObj [("light",
                             JObj [("type", JStr "directional");
                                   ("color", JArr [JNum 1; JNum 1; JNum 1]);
                                   ("intensity", JNum 1)])]);
                     ("rotation", JArr [JNum 45; JNum 45; JNum 0])]])].

(** The arguments of the creates in [createBlankProject]. *)
Definition blankProjectData (name : string) : PartialProject :=
  mkPartialProject None (Some name) (Some (Some "A new blank project")) None None None
    None None (Some blankSettings) None None None None None.

Definition mainSceneData (projectId : Z) : PartialScene :=
  mkPartialScene None (Some projectId) (Some "master") (Some "Main Scene")
    (Some (JObj [("entities", JArr [])])) None None.

(** The arguments of the creates in [createSampleProject]. *)
Definition sampleProjectData : PartialProject :=
  mkPartialProject None (Some "Sample Project")
    (Some (Some "A sample project with example assets and scenes")) None None None
    None None (Some sampleSettings) None None None None None.

Definition gameSceneArg (projectId : Z) (grey nearClip : JsVal) : PartialScene :=
  mkPartialScene None (Some projectId) (Some "master") (Some "Game Scene")
    (Some (gameSceneData grey nearClip)) None None.

(** The argument of the folder creates: [{ projectId, branchId: 'master',
    name, type: 'folder', parent: null }]. *)
Definition folderData (projectId : Z) (name : string) : PartialAsset :=
  mkPartialAsset None (Some projectId) (Some "master") (Some name) (Some "folder")
    (Some ParentNull) None None None None None.

(** The argument of the script creates. *)
Definition scriptAssetData (projectId : Z) (name : string) (parent : Z)
    (script : string) : PartialAsset :=
  mkPartialAsset None (Some projectId) (Some "master") (Some name) (Some "script")
    (Some (ParentId parent)) None (Some (scriptData script)) None None None.

Section Callers.
Variable clock : nat → Timestamp.
Variables grey nearClip : JsVal.

(** [createBlankProject(name = 'Blank Project')]: [None] is a call without
    the argument. *)
Definition createBlankProject (name : option string) : M Z :=
  project ← createProject clock (blankProjectData (default "Blank Project" name));
  createScene clock (mainSceneData (p_id project));;
  mret (p_id project).

Definition createSampleProject : M Z :=
  project ← createProject clock sampleProjectData;
  modelsFolder ← createAsset clock (folderData (p_id project) "Models");
  texturesFolder ← createAsset clock (folderData (p_id project) "Textures");
  scriptsFolder ← createAsset clock (folderData (p_id project) "Scripts");
  createAsset clock
    (scriptAssetData (p_id project) "PlayerController.js" (a_id scriptsFolder)
       "playerController");;
  createAsset clock
    (scriptAssetData (p_id project) "CameraController.js" (a_id scriptsFolder)
       "cameraController");;
  createScene clock (gameSceneArg (p_id project) grey nearClip);;
  mret (p_id project).

(** The [catch] block logs and throws the error again. *)
Definition seedSampleProjects : M (list Z) :=
  blankId ← createBlankProject (Some "My First Project");
  sampleId ← createSampleProject;
  mret [blankId; sampleId].

Definition hasProjects : M bool :=
  projects ← listProjects;
  mret (bool_decide (0 < length projects)%nat).

Definition initializeIfEmpty : M unit :=
  exist ← hasProjects;
  if negb exist then seedSampleProjects;; mret tt else mret tt.

(** ** Start-up ([src/local/local-backend-override.ts])

    The part of [window.config.project] the start-up code reads and
    writes; [None] stands for a missing [window.config] or
    [window.config.project]. *)
Record ConfigProject : Type := mkConfigProject {
  cp_id : JsVal;
  cp_name : JsVal
}.

(** [p.id === currentProjectId], where [p.id] is a number. *)
Definition id_is (currentProjectId : JsVal) (p : Project) : bool :=
  match currentProjectId with
  | JNum n => p_id p =? n
  | _ => false
  end.

(** The callback of [localStorageManager.init().then(...)], run after
    [init], returning the configuration it leaves. *)
Definition startup_then (config : option ConfigProject) : M (option ConfigProject) :=
  projects ← listProjects;
  match projects with
  | [] =>
      projectId ← createBlankProject (Some "Default Project");
      mret (match config with
            | Some _ => Some (mkConfigProject (JNum projectId) (JStr "Default Project"))
            | None => None
            end)
  | first :: _ =>
      mret (match config with
            | Some c =>
                let projectExists := existsb (id_is (cp_id c)) projects in
                if negb projectExists
                then Some (mkConfigProject (JNum (p_id first)) (JStr (p_name first)))
                else config
            | None => None
            end)
  end.

(** [init().then(...).catch(...)]: a rejection is logged and the
    configuration stays as it was. *)
Definition startup (config : option ConfigProject) (w : World)
    : option ConfigProject * World :=
  match (init;; startup_then config) w with
  | (Ok config', w') => (config', w')
  | (Err _, w') => (config, w')
  end.

(** ** Backup files ([src/local/project-import-export.ts]) *)

(** The object [exportAllProjects] serialises into the backup file. *)
Record BackupFile : Type := mkBackupFile {
  bf_version : Z;
  bf_exportedAt : Timestamp;
  bf_projects : list Snapshot
}.

(** [exportAllProjects] up to the object it hands to [JSON.stringify];
    the download of the file is not modelled. *)
Definition exportAllProjects : M BackupFile :=
  projects ← listProjects;
  allData ← forEach (λ project, exportProject clock (p_id project)) projects;
  exportedAt ← now clock;
  mret (mkBackupFile 1 exportedAt allData).

(** What [JSON.parse] gives [importAllProjects]: [projects] is [None] when
    the property is missing, falsy or not an array. *)
Record BackupData : Type := mkBackupData {
  bd_projects : option (list ImportData)
}.

(** A backup file read back. *)
Definition asBackupData (f : BackupFile) : BackupData :=
  mkBackupData (Some (asImportData <$> bf_projects f)).

(** [importAllProjects] from the parsed file on. *)
Definition importAllProjects (backupData : BackupData) : M (list Z) :=
  match bd_projects backupData with
  | None => throw (JsError "Invalid backup file format")
  | Some projects =>
      forEach (λ projectData,
        project ← importProject clock projectData; mret (p_id project)) projects
  end.

(** ** Shim functions over the manager ([src/local/local-rest-api.ts]) *)

(** The promise of [projectTransfer(projectId, data)]; [owner_id] is
    [data.owner_id], [None] when [data] has no such property. *)
Definition projectTransfer (projectId : Z) (owner_id : option JsVal) : M Project :=
  updateProject clock projectId
    (mkPartialProject None None None (Some (default JUndefined owner_id)) None None
       None None None None None None None None).

(** The promise of [projectImage(projectId, file)] once [reader.onload]
    has run with [reader.result = imageUrl].  [resolve] is called from the
    [then] of [updateProject] only: [Some url] is the promise resolved
    with [{ url }], [None] the promise left pending. *)
Definition projectImage (projectId : Z) (imageUrl : string)
    : World → option string * World := λ w,
  match updateProject clock projectId
          (mkPartialProject None None None None None None None None None None
             (Some (Some imageUrl)) None None None) w with
  | (Ok _, w') => (Some imageUrl, w')
  | (Err _, w') => (None, w')
  end.

End Callers.

(** An entry of the list [uploadUrls] resolves with. *)
Record UploadUrl : Type := mkUploadUrl {
  u_url : string;
  u_partNumber : Z
}.

(** The loop [for (let i = 0; i < args.parts; i++) urls.push(...)], from
    a given [i] and [urls]; [None] when the rounds allowed run out. *)
Fixpoint uploadUrls_loop (rounds : nat) (parts i : Z) (urls : list UploadUrl)
    : option (list UploadUrl) :=
  if bool_decide (i < parts) then
    match rounds with
    | O => None
    | S rounds' =>
        uploadUrls_loop rounds' parts (i + 1)
          (urls ++ [mkUploadUrl ("local://upload/" +:+ pretty i) (i + 1)])
    end
  else Some urls.

Definition uploadUrls (rounds : nat) (parts : Z) : option (list UploadUrl) :=
  uploadUrls_loop rounds parts 0 [].

(** ** Counters over a session *)

(** The counters a page reload would rebuild from the [metadata] store. *)
Definition savedCounters (w : World) : Manager := mgr (reload w).

(** No counter of [m1] is above that of [m2]. *)
Definition counters_le (m1 m2 : Manager) : Prop :=
  nextProjectId m1 ≤ nextProjectId m2
  ∧ nextAssetId m1 ≤ nextAssetId m2
  ∧ nextSceneId m1 ≤ nextSceneId m2.

Definition is_clearAll (r : Request) : bool :=
  match r with
  | ReqClearAll => true
  | _ => false
  end.

(** ** Subscriptions of a schedule *)

(** The handlers a schedule passes to [on] for [event], in the order of
    the calls. *)
Definition subscribed (event : string) (schedule : list LocalAjax.Action)
    : list LocalAjax.Handler :=
  omap (λ a, match a with
             | LocalAjax.CallOn e h => if decide (e = event) then Some h else None
             | _ => None
             end) schedule.

(** * Properties *)

(** ** Object stores *)

Section ObjectStoreFacts.
Context {R : Type}.
Variable owner : R → Z.

Lemma elem_of_index_only pid (t : gmap Z R) k r :
  (k, r) ∈ index_only owner pid t ↔ t !! k = Some r ∧ owner r = pid.
Proof.
  unfold index_only. rewrite merge_sort_Permutation, list_elem_of_filter.
  rewrite elem_of_map_to_list. simpl. tauto.
Qed.

Lemma index_only_insert_fresh pid (t : gmap Z R) k r :
  t !! k = None →
  index_only owner pid (<[k := r]> t)
    ≡ₚ (if decide (owner r = pid) then [(k, r)] else []) ++ index_only owner pid t.
Proof.
  intros Hk. unfold index_only. rewrite !merge_sort_Permutation.
  rewrite map_to_list_insert by done. rewrite filter_cons. simpl.
  by destruct (decide (owner r = pid)).
Qed.

Lemma length_index_getAll_insert_fresh pid (t : gmap Z R) k r :
  t !! k = None →
  length (index_getAll owner pid (<[k := r]> t))
  = ((if decide (owner r = pid) then 1 else 0)
     + length (index_getAll owner pid t))%nat.
Proof.
  intros Hk. unfold index_getAll. rewrite !length_fmap.
  rewrite (index_only_insert_fresh pid t k r Hk), length_app.
  by destruct (decide (owner r = pid)).
Qed.

Lemma lookup_foldl_delete (l : list (Z * R)) (t : gmap Z R) k :
  foldl (λ acc kv, delete kv.1 acc) t l !! k
  = if decide (k ∈ l.*1) then None else t !! k.
Proof.
  revert t. induction l as [|[k' r'] l IH]; intros t.
  - destruct (decide (k ∈ ([] : list (Z * R)).*1)) as [Hin|Hin]; [|done].
    by apply elem_of_nil in Hin.
  - rewrite fmap_cons. cbn [foldl fst]. rewrite IH.
    destruct (decide (k ∈ l.*1)) as [Hin|Hin];
      destruct (decide (k ∈ k' :: l.*1)) as [Hin'|Hin']; try done.
    + exfalso. apply Hin'. by right.
    + apply elem_of_cons in Hin' as [->|?]; [apply lookup_delete_eq|done].
    + rewrite lookup_delete_ne; [done|]. intros ->. apply Hin'. by left.
Qed.

(** What the cursor loop leaves in the store: the records of other owners. *)
Lemma lookup_cursor_delete_all pid (t : gmap Z R) k :
  cursor_delete_all owner pid t !! k
  = match t !! k with
    | Some r => if decide (owner r = pid) then None else Some r
    | None => None
    end.
Proof.
  unfold cursor_delete_all. rewrite lookup_foldl_delete.
  destruct (t !! k) as [r|] eqn:Hk.
  - destruct (decide (owner r = pid)) as [Ho|Ho].
    + rewrite decide_True; [done|]. apply list_elem_of_fmap. exists (k, r).
      split; [done|]. by apply elem_of_index_only.
    + rewrite decide_False; [done|]. intros ([k' r'] & -> & Hin)%list_elem_of_fmap.
      apply elem_of_index_only in Hin as [Hin ?]. simpl in *. congruence.
  - rewrite decide_False; [done|]. intros ([k' r'] & -> & Hin)%list_elem_of_fmap.
    apply elem_of_index_only in Hin as [Hin ?]. simpl in *. congruence.
Qed.

Lemma index_getAll_nil pid (t : gmap Z R) :
  (∀ k r, t !! k = Some r → owner r ≠ pid) → index_getAll owner pid t = [].
Proof.
  intros Hnone. unfold index_getAll.
  assert (index_only owner pid t = []) as ->; [|done].
  apply elem_of_nil_inv. intros [k r] Hin%elem_of_index_only.
  destruct Hin as [Hk Ho]. by apply (Hnone k r).
Qed.

Lemma index_getAll_cursor_delete_all pid (t : gmap Z R) :
  index_getAll owner pid (cursor_delete_all owner pid t) = [].
Proof.
  apply index_getAll_nil. intros k r. rewrite lookup_cursor_delete_all.
  destruct (t !! k) as [r'|]; [|done]. by destruct (decide (owner r' = pid)); intros; simplify_eq.
Qed.

End ObjectStoreFacts.

(** ** The manager: single operations *)

Ltac exec :=
  unfold mbind, M_bind, mret, M_ret, throw, read_db, modify_db, modify_mgr,
    getNextProjectId, getNextAssetId, getNextSceneId, now, saveMetadata,
    tx_add, store_add, store_put, settle; cbn.

Ltac open_world w :=
  let i := fresh "i" in
  destruct w as [[i ? ? ?] [? ? ? ?] ?]; cbn in *.

Lemma init_ready w : initPromise (mgr w) = true → init w = (Ok tt, w).
Proof. intros H. unfold init. by rewrite H. Qed.

Lemma init_idb w : idb (init w).2 = idb w.
Proof. unfold init. by destruct (initPromise (mgr w)). Qed.

Lemma init_is_ok w : (init w).1 = Ok tt.
Proof. unfold init. by destruct (initPromise (mgr w)). Qed.

Lemma init_initPromise w : initPromise (mgr (init w).2) = true.
Proof. unfold init. by destruct (initPromise (mgr w)) eqn:E. Qed.

Lemma init_ticks w : ticks (init w).2 = ticks w.
Proof. unfold init. by destruct (initPromise (mgr w)). Qed.

Section ManagerFacts.
Variable clock : nat → Timestamp.

Lemma getProject_ready x w :
  initPromise (mgr w) = true → getProject x w = (Ok (projects (idb w) !! x), w).
Proof. intros Hi. unfold getProject, mbind, M_bind. by rewrite (init_ready w Hi). Qed.

Lemma getAsset_ready x w :
  initPromise (mgr w) = true → getAsset x w = (Ok (assets (idb w) !! x), w).
Proof. intros Hi. unfold getAsset, mbind, M_bind. by rewrite (init_ready w Hi). Qed.

Lemma getScene_ready x w :
  initPromise (mgr w) = true → getScene x w = (Ok (scenes (idb w) !! x), w).
Proof. intros Hi. unfold getScene, mbind, M_bind. by rewrite (init_ready w Hi). Qed.

Lemma createProject_ok d w :
  wf w →
  let p := makeProject (nextProjectId (mgr w)) (clock (ticks w))
             (clock (S (ticks w))) d in
  createProject clock d w = (Ok p, afterCreateProject p w).
Proof.
  intros [Hi Hp _ _ _ _ _] p. subst p. open_world w. subst.
  unfold createProject, init. exec.
  destruct (_ !! _) as [r|] eqn:E; [|done].
  apply Hp in E. lia.
Qed.

Lemma createAsset_ok d w :
  wf w →
  let a := makeAsset (nextAssetId (mgr w)) (clock (ticks w))
             (clock (S (ticks w))) d in
  createAsset clock d w = (Ok a, afterCreateAsset a w).
Proof.
  intros [Hi _ Ha _ _ _ _] a. subst a. open_world w. subst.
  unfold createAsset, init. exec.
  destruct (_ !! _) as [r|] eqn:E; [|done].
  apply Ha in E. lia.
Qed.

Lemma createScene_ok d w :
  wf w →
  let s := makeScene (nextSceneId (mgr w)) (clock (ticks w))
             (clock (S (ticks w))) d in
  createScene clock d w = (Ok s, afterCreateScene s w).
Proof.
  intros [Hi _ _ Hs _ _ _] s. subst s. open_world w. subst.
  unfold createScene, init. exec.
  destruct (_ !! _) as [r|] eqn:E; [|done].
  apply Hs in E. lia.
Qed.

Lemma wf_afterCreateProject p w :
  wf w → p_id p = nextProjectId (mgr w) → wf (afterCreateProject p w).
Proof.
  intros [Hi Hp Ha Hs Hpk Hak Hsk] Hid.
  destruct w as [[i np na ns] [tp ta ts md] tk]; cbn in *.
  split; cbn; try done.
  - intros k r. rewrite Hid, lookup_insert. case_decide; [intros; lia|].
    intros Hk%Hp. lia.
  - intros k r. rewrite lookup_insert. case_decide; [intros; simplify_eq; lia|].
    apply Hpk.
Qed.

Lemma wf_afterCreateAsset a w :
  wf w → a_id a = nextAssetId (mgr w) → wf (afterCreateAsset a w).
Proof.
  intros [Hi Hp Ha Hs Hpk Hak Hsk] Hid.
  destruct w as [[i np na ns] [tp ta ts md] tk]; cbn in *.
  split; cbn; try done.
  - intros k r. rewrite Hid, lookup_insert. case_decide; [intros; lia|].
    intros Hk%Ha. lia.
  - intros k r. rewrite lookup_insert. case_decide; [intros; simplify_eq; lia|].
    apply Hak.
Qed.

Lemma wf_afterCreateScene s w :
  wf w → s_id s = nextSceneId (mgr w) → wf (afterCreateScene s w).
Proof.
  intros [Hi Hp Ha Hs Hpk Hak Hsk] Hid.
  destruct w as [[i np na ns] [tp ta ts md] tk]; cbn in *.
  split; cbn; try done.
  - intros k r. rewrite Hid, lookup_insert. case_decide; [intros; lia|].
    intros Hk%Hs. lia.
  - intros k r. rewrite lookup_insert. case_decide; [intros; simplify_eq; lia|].
    apply Hsk.
Qed.

Lemma durable_saved w md :
  initPromise (mgr w) = true →
  metadata (idb w) = putCounters (mgr w) md →
  durable w.
Proof.
  intros Hi Hmd. unfold durable, init, restart. cbn. exec.
  unfold loadMetadata. cbn. rewrite Hmd. unfold putCounters.
  simplify_map_eq. destruct (mgr w); cbn in *. by subst.
Qed.

Lemma durable_afterCreateProject p w :
  initPromise (mgr w) = true → durable (afterCreateProject p w).
Proof. intros Hi. by eapply durable_saved. Qed.

Lemma durable_afterCreateAsset a w :
  initPromise (mgr w) = true → durable (afterCreateAsset a w).
Proof. intros Hi. by eapply durable_saved. Qed.

Lemma durable_afterCreateScene s w :
  initPromise (mgr w) = true → durable (afterCreateScene s w).
Proof. intros Hi. by eapply durable_saved. Qed.

(** A reload is invisible when the counters are persisted. *)
Lemma init_restart w :
  initPromise (mgr w) = true → durable w → init (restart w) = (Ok tt, w).
Proof.
  intros Hi Hd. unfold durable in Hd.
  rewrite (surjective_pairing (init (restart w))), init_is_ok. f_equal.
  pose proof (init_idb (restart w)) as Hdb.
  pose proof (init_ticks (restart w)) as Htk.
  destruct (init (restart w)).2 as [m' d' t']. destruct w as [m d t].
  cbn in *. by subst.
Qed.

(** ** The manager: loops of creates *)

Lemma forEach_cons_ok {A B} (f : A → M B) x xs w y w1 ys w2 :
  f x w = (Ok y, w1) →
  forEach f xs w1 = (Ok ys, w2) →
  forEach f (x :: xs) w = (Ok (y :: ys), w2).
Proof. intros Hx Hxs. cbn. unfold mbind, M_bind. by rewrite Hx, Hxs. Qed.

Lemma forEach_fmap {A B C} (g : B → M C) (f : A → B) xs :
  forEach (λ x, g (f x)) xs = forEach g (f <$> xs).
Proof. induction xs as [|x xs IH]; cbn; [done|]. by rewrite IH. Qed.

Lemma forEach_createAsset ds w :
  wf w →
  ∃ rs w', forEach (createAsset clock) ds w = (Ok rs, w')
           ∧ AssetsCreated clock ds w rs w'.
Proof.
  revert w. induction ds as [|d ds IH]; intros w Hwf.
  - exists [], w. split; [done|].
    destruct Hwf as [Hi ? ? ? ? ? ?].
    split; cbn; try done.
    + destruct (mgr w); cbn. f_equal. lia.
    + by intros [?|?].
    + by intros r ?%elem_of_nil.
  - set (a := makeAsset (nextAssetId (mgr w)) (clock (ticks w))
                (clock (S (ticks w))) d).
    pose proof (createAsset_ok d w Hwf) as Hcreate. cbn zeta in Hcreate. fold a in Hcreate.
    assert (wf (afterCreateAsset a w)) as Hwf1 by by apply wf_afterCreateAsset.
    destruct (IH _ Hwf1) as (rs & w' & Hrun & Hspec).
    exists (a :: rs), w'. split; [by eapply forEach_cons_ok|].
    destruct Hspec as [Hwf' Hmgr Hproj Hsc Htk Hdur Hlen Hres Hsto Hkept Hsize Hidx].
    assert (assets (idb w) !! nextAssetId (mgr w) = None) as Hfresh.
    { destruct (assets (idb w) !! nextAssetId (mgr w)) eqn:E; [|done].
      apply (wf_assets _ Hwf) in E. lia. }
    split.
    + done.
    + rewrite Hmgr. cbn. f_equal. lia.
    + by rewrite Hproj.
    + by rewrite Hsc.
    + rewrite Htk. cbn. lia.
    + intros _. apply Hdur. right. apply durable_afterCreateAsset, Hwf.
    + cbn. by rewrite Hlen.
    + intros [|i] d' Hd'; cbn in Hd'.
      * simplify_eq. change ((a :: rs) !! 0%nat) with (Some a). unfold a.
        do 2 f_equal; [lia|f_equal; lia|do 2 f_equal; lia].
      * change ((a :: rs) !! S i) with (rs !! i). rewrite (Hres i d' Hd'). cbn.
        do 2 f_equal; [lia|f_equal; lia|do 2 f_equal; lia].
    + intros r [->|Hin]%elem_of_cons; [|by apply Hsto].
      apply Hkept. cbn. by rewrite lookup_insert_eq.
    + intros k r Hk. apply Hkept. cbn. rewrite lookup_insert_ne; [done|].
      intros <-. cbn in Hk. congruence.
    + rewrite Hsize. cbn. rewrite map_size_insert_None by done. lia.
    + intros pid. rewrite Hidx. cbn [afterCreateAsset idb set_assets set_metadata assets].
      rewrite (length_index_getAll_insert_fresh a_projectId pid _ _ _ Hfresh).
      rewrite filter_cons. destruct (decide (a_projectId a = pid)); cbn; lia.
Qed.

Lemma forEach_createScene ds w :
  wf w →
  ∃ rs w', forEach (createScene clock) ds w = (Ok rs, w')
           ∧ ScenesCreated clock ds w rs w'.
Proof.
  revert w. induction ds as [|d ds IH]; intros w Hwf.
  - exists [], w. split; [done|].
    destruct Hwf as [Hi ? ? ? ? ? ?].
    split; cbn; try done.
    + destruct (mgr w); cbn. f_equal. lia.
    + by intros [?|?].
    + by intros r ?%elem_of_nil.
  - set (a := makeScene (nextSceneId (mgr w)) (clock (ticks w))
                (clock (S (ticks w))) d).
    pose proof (createScene_ok d w Hwf) as Hcreate. cbn zeta in Hcreate. fold a in Hcreate.
    assert (wf (afterCreateScene a w)) as Hwf1 by by apply wf_afterCreateScene.
    destruct (IH _ Hwf1) as (rs & w' & Hrun & Hspec).
    exists (a :: rs), w'. split; [by eapply forEach_cons_ok|].
    destruct Hspec as [Hwf' Hmgr Hproj Hsc Htk Hdur Hlen Hres Hsto Hkept Hsize Hidx].
    assert (scenes (idb w) !! nextSceneId (mgr w) = None) as Hfresh.
    { destruct (scenes (idb w) !! nextSceneId (mgr w)) eqn:E; [|done].
      apply (wf_scenes _ Hwf) in E. lia. }
    split.
    + done.
    + rewrite Hmgr. cbn. f_equal. lia.
    + by rewrite Hproj.
    + by rewrite Hsc.
    + rewrite Htk. cbn. lia.
    + intros _. apply Hdur. right. apply durable_afterCreateScene, Hwf.
    + cbn. by rewrite Hlen.
    + intros [|i] d' Hd'; cbn in Hd'.
      * simplify_eq. change ((a :: rs) !! 0%nat) with (Some a). unfold a.
        do 2 f_equal; [lia|f_equal; lia|do 2 f_equal; lia].
      * change ((a :: rs) !! S i) with (rs !! i). rewrite (Hres i d' Hd'). cbn.
        do 2 f_equal; [lia|f_equal; lia|do 2 f_equal; lia].
    + intros r [->|Hin]%elem_of_cons; [|by apply Hsto].
      apply Hkept. cbn. by rewrite lookup_insert_eq.
    + intros k r Hk. apply Hkept. cbn. rewrite lookup_insert_ne; [done|].
      intros <-. cbn in Hk. congruence.
    + rewrite Hsize. cbn. rewrite map_size_insert_None by done. lia.
    + intros pid. rewrite Hidx. cbn [afterCreateScene idb set_scenes set_metadata scenes].
      rewrite (length_index_getAll_insert_fresh s_projectId pid _ _ _ Hfresh).
      rewrite filter_cons. destruct (decide (s_projectId a = pid)); cbn; lia.
Qed.

Lemma forEach_createProject ds w :
  wf w →
  ∃ rs w', forEach (createProject clock) ds w = (Ok rs, w')
           ∧ ProjectsCreated clock ds w rs w'.
Proof.
  revert w. induction ds as [|d ds IH]; intros w Hwf.
  - exists [], w. split; [done|].
    destruct Hwf as [Hi ? ? ? ? ? ?].
    split; cbn; try done.
    + destruct (mgr w); cbn. f_equal. lia.
    + by intros [?|?].
    + by intros r ?%elem_of_nil.
  - set (a := makeProject (nextProjectId (mgr w)) (clock (ticks w))
                (clock (S (ticks w))) d).
    pose proof (createProject_ok d w Hwf) as Hcreate. cbn zeta in Hcreate. fold a in Hcreate.
    assert (wf (afterCreateProject a w)) as Hwf1 by by apply wf_afterCreateProject.
    destruct (IH _ Hwf1) as (rs & w' & Hrun & Hspec).
    exists (a :: rs), w'. split; [by eapply forEach_cons_ok|].
    destruct Hspec as [Hwf' Hmgr Hproj Hsc Htk Hdur Hlen Hres Hsto Hkept Hsize].
    assert (projects (idb w) !! nextProjectId (mgr w) = None) as Hfresh.
    { destruct (projects (idb w) !! nextProjectId (mgr w)) eqn:E; [|done].
      apply (wf_projects _ Hwf) in E. lia. }
    split.
    + done.
    + rewrite Hmgr. cbn. f_equal. lia.
    + by rewrite Hproj.
    + by rewrite Hsc.
    + rewrite Htk. cbn. lia.
    + intros _. apply Hdur. right. apply durable_afterCreateProject, Hwf.
    + cbn. by rewrite Hlen.
    + intros [|i] d' Hd'; cbn in Hd'.
      * simplify_eq. change ((a :: rs) !! 0%nat) with (Some a). unfold a.
        do 2 f_equal; [lia|f_equal; lia|do 2 f_equal; lia].
      * change ((a :: rs) !! S i) with (rs !! i). rewrite (Hres i d' Hd'). cbn.
        do 2 f_equal; [lia|f_equal; lia|do 2 f_equal; lia].
    + intros r [->|Hin]%elem_of_cons; [|by apply Hsto].
      apply Hkept. cbn. by rewrite lookup_insert_eq.
    + intros k r Hk. apply Hkept. cbn. rewrite lookup_insert_ne; [done|].
      intros <-. cbn in Hk. congruence.
    + rewrite Hsize. cbn. rewrite map_size_insert_None by done. lia.
Qed.

End ManagerFacts.

Lemma init_newWorld : init newWorld = (Ok tt, readyWorld).
Proof. reflexivity. Qed.

Lemma wf_readyWorld : wf readyWorld.
Proof. split; cbn; try done; intros k r; by rewrite lookup_empty. Qed.

Lemma durable_readyWorld : durable readyWorld.
Proof. reflexivity. Qed.

(** The scenario lists exactly two Assets, in key order: the folder with
    parent [null], and the model whose parent is the folder. *)
Example demoScenario_lists_two_assets :
  ∃ models hero w,
    demoScenario newWorld = (Ok (models, [models; hero]), w)
    ∧ a_parent models = ParentNull
    ∧ a_parent hero = ParentId (a_id models).
Proof. eexists _, _, _. split; [vm_compute; reflexivity|]. by cbn. Qed.

(** Deleting Project 1000 of the demo world empties all three stores. *)
Example deleteProject_demoWorld :
  idb (deleteProject 1000 demoWorld).2
  = mkDB ∅ ∅ ∅ (metadata (idb demoWorld)).
Proof. by vm_compute. Qed.

(** ** Create: identifiers and timestamps *)

Section CreateFacts.
Variable clock : nat → Timestamp.

Lemma createProject_run ds w :
  wf w →
  ∃ rs w', forEach (createProject clock) ds w = (Ok rs, w')
    ∧ length rs = length ds
    ∧ (∀ (i j : nat) p q, (i < j)%nat → rs !! i = Some p → rs !! j = Some q →
         p_id p < p_id q)
    ∧ (∀ p, p ∈ rs →
         projects (idb w) !! p_id p = None
         ∧ ∀ k r, projects (idb w) !! k = Some r → k < p_id p)
    ∧ (∀ (i : nat) p, rs !! i = Some p →
         p_created p = clock (ticks w + 2 * i)%nat
         ∧ p_modified p = clock (S (ticks w + 2 * i))).
Proof.
  intros Hwf. destruct (forEach_createProject clock ds w Hwf) as (rs & w' & Hrun & Hspec).
  exists rs, w'. split; [done|].
  assert (∀ (i : nat) p, rs !! i = Some p →
            ∃ d, p = makeProject (nextProjectId (mgr w) + Z.of_nat i)
                       (clock (ticks w + 2 * i)%nat) (clock (S (ticks w + 2 * i))) d)
    as Hshape.
  { intros i p Hp.
    assert (i < length ds)%nat as Hi.
    { rewrite <- (pc_length _ _ _ _ _ Hspec). by eapply lookup_lt_Some. }
    destruct (lookup_lt_is_Some_2 ds i Hi) as [d Hd].
    exists d. pose proof (pc_results _ _ _ _ _ Hspec i d Hd). congruence. }
  split_and!.
  - apply (pc_length _ _ _ _ _ Hspec).
  - intros i j p q Hij (dp & ->)%Hshape (dq & ->)%Hshape. cbn. lia.
  - intros p (i & Hp)%list_elem_of_lookup. destruct (Hshape i p Hp) as (d & ->). cbn.
    split.
    + destruct (projects (idb w) !! _) eqn:E; [|done].
      apply (wf_projects _ Hwf) in E. lia.
    + intros k r Hk%(wf_projects _ Hwf). lia.
  - intros i p (d & ->)%Hshape. done.
Qed.

Lemma createAsset_run ds w :
  wf w →
  ∃ rs w', forEach (createAsset clock) ds w = (Ok rs, w')
    ∧ length rs = length ds
    ∧ (∀ (i j : nat) p q, (i < j)%nat → rs !! i = Some p → rs !! j = Some q →
         a_id p < a_id q)
    ∧ (∀ p, p ∈ rs →
         assets (idb w) !! a_id p = None
         ∧ ∀ k r, assets (idb w) !! k = Some r → k < a_id p)
    ∧ (∀ (i : nat) p, rs !! i = Some p →
         a_created p = clock (ticks w + 2 * i)%nat
         ∧ a_modified p = clock (S (ticks w + 2 * i))).
Proof.
  intros Hwf. destruct (forEach_createAsset clock ds w Hwf) as (rs & w' & Hrun & Hspec).
  exists rs, w'. split; [done|].
  assert (∀ (i : nat) p, rs !! i = Some p →
            ∃ d, p = makeAsset (nextAssetId (mgr w) + Z.of_nat i)
                       (clock (ticks w + 2 * i)%nat) (clock (S (ticks w + 2 * i))) d)
    as Hshape.
  { intros i p Hp.
    assert (i < length ds)%nat as Hi.
    { rewrite <- (ac_length _ _ _ _ _ Hspec). by eapply lookup_lt_Some. }
    destruct (lookup_lt_is_Some_2 ds i Hi) as [d Hd].
    exists d. pose proof (ac_results _ _ _ _ _ Hspec i d Hd). congruence. }
  split_and!.
  - apply (ac_length _ _ _ _ _ Hspec).
  - intros i j p q Hij (dp & ->)%Hshape (dq & ->)%Hshape. cbn. lia.
  - intros p (i & Hp)%list_elem_of_lookup. destruct (Hshape i p Hp) as (d & ->). cbn.
    split.
    + destruct (assets (idb w) !! _) eqn:E; [|done].
      apply (wf_assets _ Hwf) in E. lia.
    + intros k r Hk%(wf_assets _ Hwf). lia.
  - intros i p (d & ->)%Hshape. done.
Qed.

Lemma createScene_run ds w :
  wf w →
  ∃ rs w', forEach (createScene clock) ds w = (Ok rs, w')
    ∧ length rs = length ds
    ∧ (∀ (i j : nat) p q, (i < j)%nat → rs !! i = Some p → rs !! j = Some q →
         s_id p < s_id q)
    ∧ (∀ p, p ∈ rs →
         scenes (idb w) !! s_id p = None
         ∧ ∀ k r, scenes (idb w) !! k = Some r → k < s_id p)
    ∧ (∀ (i : nat) p, rs !! i = Some p →
         s_created p = clock (ticks w + 2 * i)%nat
         ∧ s_modified p = clock (S (ticks w + 2 * i))).
Proof.
  intros Hwf. destruct (forEach_createScene clock ds w Hwf) as (rs & w' & Hrun & Hspec).
  exists rs, w'. split; [done|].
  assert (∀ (i : nat) p, rs !! i = Some p →
            ∃ d, p = makeScene (nextSceneId (mgr w) + Z.of_nat i)
                       (clock (ticks w + 2 * i)%nat) (clock (S (ticks w + 2 * i))) d)
    as Hshape.
  { intros i p Hp.
    assert (i < length ds)%nat as Hi.
    { rewrite <- (sc_length _ _ _ _ _ Hspec). by eapply lookup_lt_Some. }
    destruct (lookup_lt_is_Some_2 ds i Hi) as [d Hd].
    exists d. pose proof (sc_results _ _ _ _ _ Hspec i d Hd). congruence. }
  split_and!.
  - apply (sc_length _ _ _ _ _ Hspec).
  - intros i j p q Hij (dp & ->)%Hshape (dq & ->)%Hshape. cbn. lia.
  - intros p (i & Hp)%list_elem_of_lookup. destruct (Hshape i p Hp) as (d & ->). cbn.
    split.
    + destruct (scenes (idb w) !! _) eqn:E; [|done].
      apply (wf_scenes _ Hwf) in E. lia.
    + intros k r Hk%(wf_scenes _ Hwf). lia.
  - intros i p (d & ->)%Hshape. done.
Qed.

End CreateFacts.




(** ** Counter durability *)

(** Any operation that starts with [await this.init()] behaves after a
    reload as it did before, once the counters are persisted. *)
Lemma bind_init_restart {A} (k : M A) w :
  initPromise (mgr w) = true → durable w →
  (init;; k) (restart w) = k w.
Proof.
  intros Hi Hd. unfold mbind, M_bind. by rewrite (init_restart w Hi Hd).
Qed.



(** ** Create: no referential check *)



(** ** Get and Update of a missing id *)

(** C7.  For an id that is not in the store, Get resolves to [undefined]
    ([None]) and Update rejects with the not-found error; neither changes
    the database, and on a running manager the whole world is unchanged. *)
Theorem missing_id_get_none_update_not_found (clock : nat → Timestamp)
    (w : World) (x : Z) :
  (projects (idb w) !! x = None →
     (getProject x w).1 = Ok None
     ∧ idb (getProject x w).2 = idb w
     ∧ ∀ d, (updateProject clock x d w).1 = Err (JsError "Project not found")
            ∧ idb (updateProject clock x d w).2 = idb w
            ∧ (initPromise (mgr w) = true → (updateProject clock x d w).2 = w))
  ∧ (assets (idb w) !! x = None →
     (getAsset x w).1 = Ok None
     ∧ idb (getAsset x w).2 = idb w
     ∧ ∀ d, (updateAsset clock x d w).1 = Err (JsError "Asset not found")
            ∧ idb (updateAsset clock x d w).2 = idb w
            ∧ (initPromise (mgr w) = true → (updateAsset clock x d w).2 = w))
  ∧ (scenes (idb w) !! x = None →
     (getScene x w).1 = Ok None
     ∧ idb (getScene x w).2 = idb w
     ∧ ∀ d, (updateScene clock x d w).1 = Err (JsError "Scene not found")
            ∧ idb (updateScene clock x d w).2 = idb w
            ∧ (initPromise (mgr w) = true → (updateScene clock x d w).2 = w)).
Proof.
  split_and!; intros Hnone.
  - unfold getProject, updateProject, getProject, init.
    destruct w as [[i np na ns] db tk]. cbn in Hnone.
    destruct i; exec; rewrite Hnone; cbn;
      split_and!; try done; intros d; split_and!; done.
  - unfold getAsset, updateAsset, getAsset, init.
    destruct w as [[i np na ns] db tk]. cbn in Hnone.
    destruct i; exec; rewrite Hnone; cbn;
      split_and!; try done; intros d; split_and!; done.
  - unfold getScene, updateScene, getScene, init.
    destruct w as [[i np na ns] db tk]. cbn in Hnone.
    destruct i; exec; rewrite Hnone; cbn;
      split_and!; try done; intros d; split_and!; done.
Qed.

(** The theorem at a database that holds nothing, for the id 42. *)
Lemma missing_id_get_none_update_not_found_witness :
  projects (idb readyWorld) !! 42 = None
  ∧ (getProject 42 readyWorld).1 = Ok None
  ∧ (updateProject frozenClock 42 emptyPartialProject readyWorld).1
    = Err (JsError "Project not found")
  ∧ (updateProject frozenClock 42 emptyPartialProject readyWorld).2 = readyWorld.
Proof.
  split; [reflexivity|].
  destruct (missing_id_get_none_update_not_found frozenClock readyWorld 42)
    as (Hprojects & _ & _).
  destruct (Hprojects eq_refl) as (Hget & _ & Hupd).
  destruct (Hupd emptyPartialProject) as (Herr & _ & Hsame).
  split; [exact Hget|]. split; [exact Herr|]. apply Hsame. reflexivity.
Defined.

(** ** Update: timestamps *)

Section UpdateFacts.
Variable clock : nat → Timestamp.

Lemma updateProject_ok x P d w :
  projects (idb w) !! x = Some P →
  let P' := mergeProject P d x (clock (ticks w)) in
  updateProject clock x d w
  = (Ok P', mkWorld (mgr (init w).2)
              (set_projects (<[x := P']> (projects (idb w))) (idb w))
              (S (ticks w))).
Proof.
  intros Hx P'. subst P'. unfold updateProject, getProject, init.
  destruct w as [[i np na ns] db tk]. cbn in Hx.
  destruct i; exec; rewrite Hx; by exec.
Qed.

Lemma updateAsset_ok x A d w :
  assets (idb w) !! x = Some A →
  let A' := mergeAsset A d x (clock (ticks w)) in
  updateAsset clock x d w
  = (Ok A', mkWorld (mgr (init w).2)
              (set_assets (<[x := A']> (assets (idb w))) (idb w))
              (S (ticks w))).
Proof.
  intros Hx A'. subst A'. unfold updateAsset, getAsset, init.
  destruct w as [[i np na ns] db tk]. cbn in Hx.
  destruct i; exec; rewrite Hx; by exec.
Qed.

Lemma updateScene_ok x S0 d w :
  scenes (idb w) !! x = Some S0 →
  let S' := mergeScene S0 d x (clock (ticks w)) in
  updateScene clock x d w
  = (Ok S', mkWorld (mgr (init w).2)
              (set_scenes (<[x := S']> (scenes (idb w))) (idb w))
              (S (ticks w))).
Proof.
  intros Hx S'. subst S'. unfold updateScene, getScene, init.
  destruct w as [[i np na ns] db tk]. cbn in Hx.
  destruct i; exec; rewrite Hx; by exec.
Qed.

End UpdateFacts.

(** C4 (amended).  An Update of an existing Project, Asset or Scene sets
    [modified] to the current reading of the clock and stores the merged
    record under the same id; [created] is unchanged whenever the
    partial-fields argument carries no [created] property, and is replaced
    by that property when it does. *)
Theorem update_refreshes_modified_keeps_created (clock : nat → Timestamp)
    (w : World) (x : Z) :
  (∀ P d, projects (idb w) !! x = Some P →
     ∃ P' w', updateProject clock x d w = (Ok P', w')
       ∧ projects (idb w') !! x = Some P'
       ∧ p_id P' = x
       ∧ p_modified P' = clock (ticks w)
       ∧ (pp_created d = None → p_created P' = p_created P)
       ∧ (∀ c, pp_created d = Some c → p_created P' = c))
  ∧ (∀ A d, assets (idb w) !! x = Some A →
     ∃ A' w', updateAsset clock x d w = (Ok A', w')
       ∧ assets (idb w') !! x = Some A'
       ∧ a_id A' = x
       ∧ a_modified A' = clock (ticks w)
       ∧ (pa_created d = None → a_created A' = a_created A)
       ∧ (∀ c, pa_created d = Some c → a_created A' = c))
  ∧ (∀ S0 d, scenes (idb w) !! x = Some S0 →
     ∃ S' w', updateScene clock x d w = (Ok S', w')
       ∧ scenes (idb w') !! x = Some S'
       ∧ s_id S' = x
       ∧ s_modified S' = clock (ticks w)
       ∧ (ps_created d = None → s_created S' = s_created S0)
       ∧ (∀ c, ps_created d = Some c → s_created S' = c)).
Proof.
  split_and!.
  - intros P d Hx. eexists _, _. split; [by apply updateProject_ok|]. cbn.
    split_and!; try done.
    + by rewrite lookup_insert_eq.
    + by intros ->.
    + by intros c ->.
  - intros A d Hx. eexists _, _. split; [by apply updateAsset_ok|]. cbn.
    split_and!; try done.
    + by rewrite lookup_insert_eq.
    + by intros ->.
    + by intros c ->.
  - intros S0 d Hx. eexists _, _. split; [by apply updateScene_ok|]. cbn.
    split_and!; try done.
    + by rewrite lookup_insert_eq.
    + by intros ->.
    + by intros c ->.
Qed.

(** The theorem at the one-project world, for a patch that renames. *)
Lemma update_refreshes_modified_keeps_created_witness :
  ∃ P, projects (idb oneProjectWorld) !! 1000 = Some P
    ∧ pp_created renamePatch = None
    ∧ ∃ P' w', updateProject tickingClock 1000 renamePatch oneProjectWorld = (Ok P', w')
        ∧ p_name P' = "Renamed"
        ∧ p_modified P' = "2026-01-07T10:00:00.002Z"
        ∧ p_created P' = p_created P.
Proof.
  destruct (update_refreshes_modified_keeps_created tickingClock oneProjectWorld 1000)
    as (Hprojects & _ & _).
  eexists. split; [vm_compute; reflexivity|]. split; [reflexivity|].
  edestruct Hprojects as (P' & w' & Hrun & _ & _ & Hmod & Hkeep & _);
    [vm_compute; reflexivity|].
  exists P', w'. split; [exact Hrun|]. split.
  - vm_compute in Hrun. injection Hrun as <- _. reflexivity.
  - split; [exact Hmod|]. apply Hkeep. reflexivity.
Defined.

(** C4 as stated fails: the merge copies a [created] property of the
    partial-fields argument over the stored one. *)
Lemma update_overwrites_created :
  ∃ P P' w',
    getProject 1000 oneProjectWorld = (Ok (Some P), oneProjectWorld)
    ∧ updateProject tickingClock 1000 backdatePatch oneProjectWorld = (Ok P', w')
    ∧ p_created P = "2026-01-07T10:00:00.000Z"
    ∧ p_created P' = "1999-12-31T23:59:59.999Z"
    ∧ p_created P' ≠ p_created P.
Proof.
  eexists _, _, _. split; [vm_compute; reflexivity|].
  split; [vm_compute; reflexivity|]. by cbn.
Qed.

(** ** Cascading delete *)

Lemma listAssets_ready pid b w :
  initPromise (mgr w) = true →
  listAssets pid b w
  = (Ok (let results := index_getAll a_projectId pid (assets (idb w)) in
         match b with
         | Some b => if String.eqb b "" then results
                     else filter (λ asset, a_branchId asset = b) results
         | None => results
         end), w).
Proof. intros Hi. unfold listAssets, mbind, M_bind. by rewrite (init_ready w Hi). Qed.

Lemma listScenes_ready pid b w :
  initPromise (mgr w) = true →
  listScenes pid b w
  = (Ok (let results := index_getAll s_projectId pid (scenes (idb w)) in
         match b with
         | Some b => if String.eqb b "" then results
                     else filter (λ scene, s_branchId scene = b) results
         | None => results
         end), w).
Proof. intros Hi. unfold listScenes, mbind, M_bind. by rewrite (init_ready w Hi). Qed.

Lemma deleteProject_ok pid w :
  deleteProject pid w
  = (Ok tt,
     mkWorld (mgr (init w).2)
       (mkDB (delete pid (projects (idb w)))
             (cursor_delete_all a_projectId pid (assets (idb w)))
             (cursor_delete_all s_projectId pid (scenes (idb w)))
             (metadata (idb w)))
       (ticks w)).
Proof.
  unfold deleteProject, init. destruct w as [[i np na ns] db tk].
  by destruct i; exec.
Qed.

(** C6.  After [deleteProject P] the Project is gone, and listing the
    Assets and the Scenes of [P] gives the empty list for every branch
    argument; the one transaction removes exactly the Assets and Scenes
    whose [projectId] is [P] and leaves every other record in place. *)
Theorem delete_cascades (w : World) (P : Z) :
  ∃ w', deleteProject P w = (Ok tt, w')
    ∧ getProject P w' = (Ok None, w')
    ∧ (∀ branchId, listAssets P branchId w' = (Ok [], w'))
    ∧ (∀ branchId, listScenes P branchId w' = (Ok [], w'))
    ∧ (∀ k r, assets (idb w') !! k = Some r
              ↔ assets (idb w) !! k = Some r ∧ a_projectId r ≠ P)
    ∧ (∀ k r, scenes (idb w') !! k = Some r
              ↔ scenes (idb w) !! k = Some r ∧ s_projectId r ≠ P)
    ∧ (∀ k, k ≠ P → projects (idb w') !! k = projects (idb w) !! k).
Proof.
  eexists. split; [apply deleteProject_ok|].
  pose proof (init_initPromise w) as Hi.
  split_and!.
  - rewrite getProject_ready by done. cbn. by rewrite lookup_delete_eq.
  - intros b. rewrite listAssets_ready by done. cbn.
    rewrite index_getAll_cursor_delete_all. by destruct b as [b|]; [destruct (String.eqb b "")|].
  - intros b. rewrite listScenes_ready by done. cbn.
    rewrite index_getAll_cursor_delete_all. by destruct b as [b|]; [destruct (String.eqb b "")|].
  - intros k r. cbn. rewrite lookup_cursor_delete_all.
    destruct (assets (idb w) !! k) as [r'|]; [|by split; [intros [=]|intros [[=] _]]].
    destruct (decide (a_projectId r' = P));
      (split; [intros [= <-]; try done|intros [[= <-] ?]; done]).
  - intros k r. cbn. rewrite lookup_cursor_delete_all.
    destruct (scenes (idb w) !! k) as [r'|]; [|by split; [intros [=]|intros [[=] _]]].
    destruct (decide (s_projectId r' = P));
      (split; [intros [= <-]; try done|intros [[= <-] ?]; done]).
  - intros k Hk. cbn. by rewrite lookup_delete_ne.
Qed.

(** ** Export and import *)

Lemma bind_ok {A B} (c : M A) (k : A → M B) w a w' :
  c w = (Ok a, w') → (c ≫= k) w = k a w'.
Proof. intros Hc. unfold mbind, M_bind. by rewrite Hc. Qed.

Lemma num_or_Some_0 (x : Z) : num_or (Some x) 0 = x.
Proof. unfold num_or. destruct (Z.eqb_spec x 0); congruence. Qed.

Section ExportImportFacts.
Variable clock : nat → Timestamp.

Lemma exportProject_ok x w :
  initPromise (mgr w) = true →
  exportProject clock x w
  = (Ok (mkSnapshot (projects (idb w) !! x)
           (index_getAll a_projectId x (assets (idb w)))
           (index_getAll s_projectId x (scenes (idb w)))
           (clock (ticks w))),
     mkWorld (mgr w) (idb w) (S (ticks w))).
Proof.
  intros Hi. unfold exportProject.
  rewrite (bind_ok _ _ _ _ _ (init_ready w Hi)).
  rewrite (bind_ok _ _ _ _ _ (getProject_ready x w Hi)).
  rewrite (bind_ok _ _ _ _ _ (listAssets_ready x None w Hi)).
  rewrite (bind_ok _ _ _ _ _ (listScenes_ready x None w Hi)).
  reflexivity.
Qed.

Lemma importProject_ok d pd w :
  wf w → d_project d = Some pd →
  let P := makeProject (nextProjectId (mgr w)) (clock (ticks w))
             (clock (S (ticks w))) pd in
  ∃ ras w1 rss w2,
    importProject clock d w = (Ok P, w2)
    ∧ AssetsCreated clock
        ((λ a, withAssetProjectId a (p_id P)) <$> default [] (d_assets d))
        (afterCreateProject P w) ras w1
    ∧ ScenesCreated clock
        ((λ s, withSceneProjectId s (p_id P)) <$> default [] (d_scenes d))
        w1 rss w2.
Proof.
  intros Hwf Hpd P.
  assert (wf (afterCreateProject P w)) as Hwf0 by by apply wf_afterCreateProject.
  destruct (forEach_createAsset clock
              ((λ a, withAssetProjectId a (p_id P)) <$> default [] (d_assets d))
              _ Hwf0) as (ras & w1 & Hassets & Hac).
  pose proof (ac_wf _ _ _ _ _ Hac) as Hwf1.
  destruct (forEach_createScene clock
              ((λ s, withSceneProjectId s (p_id P)) <$> default [] (d_scenes d))
              _ Hwf1) as (rss & w2 & Hscenes & Hsc).
  exists ras, w1, rss, w2. split; [|done].
  unfold importProject. rewrite Hpd.
  rewrite (bind_ok _ _ _ _ _ (init_ready w (wf_ready _ Hwf))).
  rewrite (bind_ok _ _ _ _ _ (createProject_ok clock pd w Hwf)). fold P.
  assert ((match d_assets d with
           | Some assetList =>
               forEach (λ assetData,
                 createAsset clock (withAssetProjectId assetData (p_id P))) assetList;;
               mret ()
           | None => mret ()
           end) (afterCreateProject P w) = (Ok (), w1)) as Hloop1.
  { destruct (d_assets d) as [das|]; cbn [default] in Hassets.
    - rewrite (forEach_fmap (createAsset clock)).
      by rewrite (bind_ok _ _ _ _ _ Hassets).
    - cbn in Hassets. by injection Hassets as <- <-. }
  rewrite (bind_ok _ _ _ _ _ Hloop1).
  assert ((match d_scenes d with
           | Some sceneList =>
               forEach (λ sceneData,
                 createScene clock (withSceneProjectId sceneData (p_id P))) sceneList;;
               mret ()
           | None => mret ()
           end) w1 = (Ok (), w2)) as Hloop2.
  { destruct (d_scenes d) as [dss|]; cbn [default] in Hscenes.
    - rewrite (forEach_fmap (createScene clock)).
      by rewrite (bind_ok _ _ _ _ _ Hscenes).
    - cbn in Hscenes. by injection Hscenes as <- <-. }
  by rewrite (bind_ok _ _ _ _ _ Hloop2).
Qed.

End ExportImportFacts.




Lemma filter_all {A} (P : A → Prop) `{!∀ x, Decision (P x)} (l : list A) :
  (∀ x, x ∈ l → P x) → filter P l = l.
Proof.
  induction l as [|x l IH]; intros Hall; [done|].
  rewrite filter_cons_True by (apply Hall; by left).
  f_equal. apply IH. intros y Hy. apply Hall. by right.
Qed.

Lemma str_or_Some_empty (s : string) : str_or (Some s) "" = s.
Proof. unfold str_or. by destruct (String.eqb_spec s ""). Qed.

Lemma wf_ticks m d t t' : wf (mkWorld m d t) → wf (mkWorld m d t').
Proof. by intros [? ? ? ? ? ? ?]. Qed.


Lemma wf_demoWorld : wf demoWorld.
Proof. apply (bool_decide_unpack _). by vm_compute. Qed.



(** ** Well-formedness is an invariant *)

Lemma reload_eq w :
  reload w
  = mkWorld
      (mkManager true
         (default 1000 (metadata (idb w) !! "nextProjectId"))
         (default 1000 (metadata (idb w) !! "nextAssetId"))
         (default 1000 (metadata (idb w) !! "nextSceneId")))
      (idb w) (ticks w).
Proof. reflexivity. Qed.

(** Well-formedness survives any change of the stores that adds no key and
    keeps records under their ids. *)
Lemma wf_shrink m d d' t t' :
  wf (mkWorld m d t) →
  (∀ k r, projects d' !! k = Some r → p_id r = k ∧ is_Some (projects d !! k)) →
  (∀ k r, assets d' !! k = Some r → a_id r = k ∧ is_Some (assets d !! k)) →
  (∀ k r, scenes d' !! k = Some r → s_id r = k ∧ is_Some (scenes d !! k)) →
  wf (mkWorld m d' t').
Proof.
  intros [Hi Hp Ha Hs _ _ _] Hp' Ha' Hs'. cbn in *. split; cbn; try done.
  - intros k r [_ [r0 Hr0]]%Hp'. by eapply Hp.
  - intros k r [_ [r0 Hr0]]%Ha'. by eapply Ha.
  - intros k r [_ [r0 Hr0]]%Hs'. by eapply Hs.
  - intros k r Hk. by apply Hp'.
  - intros k r Hk. by apply Ha'.
  - intros k r Hk. by apply Hs'.
Qed.

Lemma consistent_shrink w d' t' :
  consistent w →
  metadata d' = metadata (idb w) →
  (∀ k r, projects d' !! k = Some r → p_id r = k ∧ is_Some (projects (idb w) !! k)) →
  (∀ k r, assets d' !! k = Some r → a_id r = k ∧ is_Some (assets (idb w) !! k)) →
  (∀ k r, scenes d' !! k = Some r → s_id r = k ∧ is_Some (scenes (idb w) !! k)) →
  consistent (mkWorld (mgr w) d' t').
Proof.
  intros [Hwf Hre] Hmd Hp Ha Hs. split.
  - destruct w as [m d t]. by eapply wf_shrink.
  - rewrite reload_eq in *. cbn [idb ticks] in *. rewrite Hmd. by eapply wf_shrink.
Qed.

Lemma keyed_kept {R} (key : R → Z) (t : gmap Z R) :
  keyed_by key t → ∀ k r, t !! k = Some r → key r = k ∧ is_Some (t !! k).
Proof. intros Hkey k r Hk. split; [by apply Hkey|by eexists]. Qed.

Lemma consistent_same_db w t' : consistent w → consistent (mkWorld (mgr w) (idb w) t').
Proof.
  intros Hc. pose proof Hc as [Hwf _].
  apply consistent_shrink; try done; apply keyed_kept; apply Hwf.
Qed.

Lemma consistent_durable w : wf w → durable w → consistent w.
Proof.
  intros Hwf Hd. split; [done|]. unfold reload.
  by rewrite (init_restart w (wf_ready _ Hwf) Hd).
Qed.

Lemma consistent_readyWorld : consistent readyWorld.
Proof. apply consistent_durable; [apply wf_readyWorld|apply durable_readyWorld]. Qed.

Section Invariant.
Variable clock : nat → Timestamp.

Lemma consistent_serve r w : consistent w → consistent (serve clock r w).
Proof.
  intros Hc. pose proof Hc as [Hwf Hre]. pose proof (wf_ready _ Hwf) as Hi.
  pose proof (wf_project_keys _ Hwf) as Kp.
  pose proof (wf_asset_keys _ Hwf) as Ka.
  pose proof (wf_scene_keys _ Hwf) as Ks.
  destruct r as [d|x|x d|x| |d|x|x d|x|x b|d|x|x d|x|x b|x|d| |]; cbn [serve].
  - (* createProject *)
    rewrite (createProject_ok clock d w Hwf). cbn [snd].
    apply consistent_durable; [by apply wf_afterCreateProject|by apply durable_afterCreateProject].
  - by rewrite (getProject_ready x w Hi).
  - (* updateProject *)
    destruct (projects (idb w) !! x) as [P|] eqn:Hx.
    + rewrite (updateProject_ok clock x P d w Hx). cbn [snd]. rewrite (init_ready w Hi). cbn [snd].
      apply consistent_shrink; try done; cbn; try (by apply keyed_kept).
      intros k r. rewrite lookup_insert. case_decide; [|by eauto].
      intros [= <-]. subst. by eauto.
    + unfold updateProject.
      rewrite (bind_ok _ _ _ _ _ (init_ready w Hi)).
      rewrite (bind_ok _ _ _ _ _ (getProject_ready x w Hi)). by rewrite Hx.
  - (* deleteProject *)
    rewrite deleteProject_ok. cbn [snd]. rewrite (init_ready w Hi). cbn [snd].
    apply consistent_shrink; try done; cbn; try (by apply keyed_kept).
    + intros k r. rewrite lookup_delete. case_decide; [done|by eauto].
    + intros k r. rewrite lookup_cursor_delete_all.
      destruct (assets (idb w) !! k) as [r'|] eqn:E; [|done].
      case_decide; [done|]. intros [= <-]. by eauto.
    + intros k r. rewrite lookup_cursor_delete_all.
      destruct (scenes (idb w) !! k) as [r'|] eqn:E; [|done].
      case_decide; [done|]. intros [= <-]. by eauto.
  - unfold listProjects. by rewrite (bind_ok _ _ _ _ _ (init_ready w Hi)).
  - (* createAsset *)
    rewrite (createAsset_ok clock d w Hwf). cbn [snd].
    apply consistent_durable; [by apply wf_afterCreateAsset|by apply durable_afterCreateAsset].
  - by rewrite (getAsset_ready x w Hi).
  - (* updateAsset *)
    destruct (assets (idb w) !! x) as [A|] eqn:Hx.
    + rewrite (updateAsset_ok clock x A d w Hx). cbn [snd]. rewrite (init_ready w Hi). cbn [snd].
      apply consistent_shrink; try done; cbn; try (by apply keyed_kept).
      intros k r. rewrite lookup_insert. case_decide; [|by eauto].
      intros [= <-]. subst. by eauto.
    + unfold updateAsset.
      rewrite (bind_ok _ _ _ _ _ (init_ready w Hi)).
      rewrite (bind_ok _ _ _ _ _ (getAsset_ready x w Hi)). by rewrite Hx.
  - (* deleteAsset *)
    unfold deleteAsset. rewrite (bind_ok _ _ _ _ _ (init_ready w Hi)). cbn.
    apply consistent_shrink; try done; cbn; try (by apply keyed_kept).
    intros k r. rewrite lookup_delete. case_decide; [done|by eauto].
  - by rewrite (listAssets_ready x b w Hi).
  - (* createScene *)
    rewrite (createScene_ok clock d w Hwf). cbn [snd].
    apply consistent_durable; [by apply wf_afterCreateScene|by apply durable_afterCreateScene].
  - by rewrite (getScene_ready x w Hi).
  - (* updateScene *)
    destruct (scenes (idb w) !! x) as [S0|] eqn:Hx.
    + rewrite (updateScene_ok clock x S0 d w Hx). cbn [snd]. rewrite (init_ready w Hi). cbn [snd].
      apply consistent_shrink; try done; cbn; try (by apply keyed_kept).
      intros k r. rewrite lookup_insert. case_decide; [|by eauto].
      intros [= <-]. subst. by eauto.
    + unfold updateScene.
      rewrite (bind_ok _ _ _ _ _ (init_ready w Hi)).
      rewrite (bind_ok _ _ _ _ _ (getScene_ready x w Hi)). by rewrite Hx.
  - (* deleteScene *)
    unfold deleteScene. rewrite (bind_ok _ _ _ _ _ (init_ready w Hi)). cbn.
    apply consistent_shrink; try done; cbn; try (by apply keyed_kept).
    intros k r. rewrite lookup_delete. case_decide; [done|by eauto].
  - by rewrite (listScenes_ready x b w Hi).
  - (* exportProject *)
    rewrite (exportProject_ok clock x w Hi). cbn [snd]. by apply consistent_same_db.
  - (* importProject *)
    destruct (d_project d) as [pd|] eqn:Hpd.
    + destruct (importProject_ok clock d pd w Hwf Hpd)
        as (ras & w1 & rss & w2 & Hrun & Hac & Hsc).
      rewrite Hrun. cbn [snd].
      apply consistent_durable; [apply (sc_wf _ _ _ _ _ Hsc)|].
      apply (sc_durable _ _ _ _ _ Hsc). right.
      apply (ac_durable _ _ _ _ _ Hac). right.
      by apply durable_afterCreateProject.
    + unfold importProject. rewrite Hpd.
      rewrite (bind_ok _ _ _ _ _ (init_ready w Hi)).
      unfold createProject_undefined, mbind at 1, M_bind.
      rewrite (bind_ok _ _ _ _ _ (init_ready w Hi)). exec.
      destruct Hc as [[? Hp ? ? ? ? ?] [? Hp' ? ? ? ? ?]].
      rewrite reload_eq in *. cbn in *.
      split; split; cbn; try done.
      intros k r Hk%Hp. lia.
  - (* clearAll *)
    unfold clearAll. rewrite (bind_ok _ _ _ _ _ (init_ready w Hi)). exec. rewrite Hi.
    apply consistent_durable; [|reflexivity].
    split; cbn; try done; intros k r; by rewrite lookup_empty.
  - (* reload *)
    split; [done|]. by rewrite !reload_eq in *.
Qed.

(** Every world the manager reaches from a database that was just created
    is well-formed. *)
Lemma reachable_wf (rs : list Request) :
  wf (foldl (λ w r, serve clock r w) readyWorld rs).
Proof.
  assert (∀ w, consistent w → consistent (foldl (λ w r, serve clock r w) w rs)) as H.
  { induction rs as [|r rs IH]; intros w Hc; [done|]. cbn.
    by apply IH, consistent_serve. }
  apply (H readyWorld consistent_readyWorld).
Qed.

End Invariant.

(** ** The [LocalAjax] adapter *)

Section AjaxFacts.
Import LocalAjax.

Lemma run_app l1 l2 st : run (l1 ++ l2) st = run l2 (run l1 st).
Proof. unfold run. apply foldl_app. Qed.

Lemma on_fields ev h st :
  promise (on ev h st) = promise st
  ∧ timers (on ev h st) = timers st
  ∧ time (on ev h st) = time st
  ∧ emitted (on ev h st) = emitted st
  ∧ calls (on ev h st) = calls st.
Proof. unfold on. by case_bool_decide. Qed.

Lemma on_handlers ev h st ev' :
  handlers (on ev h st) !! ev'
  = if bool_decide (ev ∈ objectPrototypeKeys) then handlers st !! ev'
    else if decide (ev = ev')
         then Some (default [] (handlers st !! ev) ++ [h])
         else handlers st !! ev'.
Proof.
  unfold on. case_bool_decide; [done|]. cbn. rewrite lookup_insert.
  case_decide; [|done]. by destruct (handlers st !! ev).
Qed.

Lemma state_eta st :
  mkState (handlers st) (promise st) (timers st) (time st) (emitted st) (calls st)
  = st.
Proof. by destruct st. Qed.

Lemma foldl_emit ready st :
  let st' := foldl (λ acc t, emit (t_event t) (t_args t) acc) st ready in
  handlers st' = handlers st
  ∧ promise st' = promise st
  ∧ timers st' = timers st
  ∧ time st' = time st
  ∧ emitted st'
    = emitted st ++ ((λ t, mkEmission (time st) (t_event t) (t_args t)) <$> ready)
  ∧ calls st' = calls st ++ (ready ≫= calls_of (handlers st)).
Proof.
  revert st. induction ready as [|t ready IH]; intros st; cbn.
  - by rewrite !app_nil_r.
  - destruct (IH (emit (t_event t) (t_args t) st)) as (Hh & Hp & Ht & Htime & He & Hc).
    cbn in *. rewrite Hh, Hp, Ht, Htime, He, Hc.
    split_and!; try done; by rewrite <- app_assoc.
Qed.

Lemma run_due_timers_none st :
  filter (λ t, (due t ≤ time st)%nat) (timers st) = [] →
  run_due_timers st = st.
Proof.
  intros Hnone. unfold run_due_timers. rewrite Hnone. cbn.
  assert (filter (λ t, ¬ (due t ≤ time st)%nat) (timers st) = timers st) as ->.
  { apply filter_all. intros t Ht Hdue.
    eapply (filter_nil_not_elem_of _ _ t Hnone); done. }
  apply state_eta.
Qed.

(** What has been emitted and what has been called only grows. *)
Lemma step_grows st a :
  (∃ es, emitted (step st a) = emitted st ++ es)
  ∧ (∃ cs, calls (step st a) = calls st ++ cs).
Proof.
  destruct a as [ev h|s|dt|]; cbn.
  - destruct (on_fields ev h st) as (_ & _ & _ & -> & ->).
    split; eexists []; by rewrite app_nil_r.
  - destruct (promise st); [|destruct s]; cbn; split; eexists []; by rewrite app_nil_r.
  - split; eexists []; by rewrite app_nil_r.
  - unfold run_due_timers.
    destruct (foldl_emit (filter (λ t, (due t ≤ time st)%nat) (timers st))
                (mkState (handlers st) (promise st)
                   (filter (λ t, ¬ (due t ≤ time st)%nat) (timers st))
                   (time st) (emitted st) (calls st)))
      as (_ & _ & _ & _ & He & Hc).
    cbn in He, Hc. rewrite He, Hc. eauto.
Qed.

Lemma run_grows l st :
  (∃ es, emitted (run l st) = emitted st ++ es)
  ∧ (∃ cs, calls (run l st) = calls st ++ cs).
Proof.
  revert st. induction l as [|a l IH]; intros st; cbn.
  - split; eexists []; by rewrite app_nil_r.
  - destruct (IH (step st a)) as [[es He] [cs Hc]].
    destruct (step_grows st a) as [[es0 He0] [cs0 Hc0]].
    unfold run in He, Hc. rewrite He, Hc, He0, Hc0.
    split; eexists; by rewrite <- app_assoc.
Qed.

Lemma run_due_timers_fire st T :
  timers st = [T] → (due T ≤ time st)%nat →
  run_due_timers st
  = emit (t_event T) (t_args T)
      (mkState (handlers st) (promise st) [] (time st) (emitted st) (calls st)).
Proof.
  intros HT Hdue. unfold run_due_timers. rewrite HT.
  rewrite !filter_cons, !filter_nil.
  destruct (decide (due T ≤ time st)%nat); [|done].
  destruct (decide (¬ (due T ≤ time st)%nat)); [done|]. reflexivity.
Qed.

Lemma run_cons a l st : run (a :: l) st = run l (step st a).
Proof. reflexivity. Qed.

(** Before the promise settles nothing is scheduled and nothing happens. *)
Lemma pending_run pre : ∀ st,
  promise st = None → timers st = [] →
  Forall (λ a, is_settle a = false) pre →
  promise (run pre st) = None
  ∧ timers (run pre st) = []
  ∧ emitted (run pre st) = emitted st
  ∧ calls (run pre st) = calls st
  ∧ time (run pre st) = (time st + elapsed pre)%nat.
Proof.
  induction pre as [|a pre IH]; intros st Hp Ht Hpre.
  - cbn. split_and!; try done; lia.
  - apply Forall_cons in Hpre as [Ha Hpre]. rewrite run_cons.
    destruct a as [ev h|s|dt|]; try done; cbn [elapsed].
    + cbn [step]. destruct (on_fields ev h st) as (Ep & Et & Etime & Ee & Ec).
      destruct (IH (on ev h st)) as (? & ? & ? & ? & ?); [congruence..|done|].
      rewrite <- Etime, <- Ee, <- Ec. by split_and!.
    + destruct (IH (step st (TimePasses dt))) as (? & ? & ? & ? & Htime); try done;
        split_and!; try assumption; rewrite Htime; cbn; lia.
    + cbn [step]. rewrite run_due_timers_none by by rewrite Ht.
      by apply IH.
Qed.

(** Once the callback has run there is nothing left to run. *)
Lemma done_run l : ∀ st,
  is_Some (promise st) → timers st = [] →
  promise (run l st) = promise st
  ∧ timers (run l st) = []
  ∧ emitted (run l st) = emitted st
  ∧ calls (run l st) = calls st
  ∧ time (run l st) = (time st + elapsed l)%nat.
Proof.
  induction l as [|a l IH]; intros st Hp Ht.
  - cbn. split_and!; try done; lia.
  - rewrite run_cons. destruct a as [ev h|s|dt|]; cbn [elapsed].
    + cbn [step]. destruct (on_fields ev h st) as (Ep & Et & Etime & Ee & Ec).
      destruct (IH (on ev h st)) as (? & ? & ? & ? & ?); [congruence..|].
      rewrite <- Ep, <- Etime, <- Ee, <- Ec. by split_and!.
    + assert (step st (PromiseSettles s) = st) as ->.
      { cbn [step]. by destruct Hp as [s' ->]. }
      by apply IH.
    + destruct (IH (step st (TimePasses dt))) as (? & ? & ? & ? & Htime); try done;
        split_and!; try assumption; rewrite Htime; cbn; lia.
    + cbn [step]. rewrite run_due_timers_none by by rewrite Ht.
      by apply IH.
Qed.

(** While the one callback is queued, a schedule either leaves it queued or
    runs it once, not before it is due. *)
Lemma waiting_run l : ∀ st s T,
  promise st = Some s → timers st = [T] →
  promise (run l st) = Some s
  ∧ time (run l st) = (time st + elapsed l)%nat
  ∧ ((timers (run l st) = [T]
      ∧ emitted (run l st) = emitted st
      ∧ calls (run l st) = calls st)
     ∨ (timers (run l st) = []
        ∧ ∃ t', (due T ≤ t')%nat ∧ (t' ≤ time (run l st))%nat
            ∧ emitted (run l st)
              = emitted st ++ [mkEmission t' (t_event T) (t_args T)])).
Proof.
  induction l as [|a l IH]; intros st s T Hp Ht.
  - cbn. split_and!; [done|lia|by left].
  - rewrite run_cons. destruct a as [ev h|s'|dt|]; cbn [elapsed].
    + cbn [step]. destruct (on_fields ev h st) as (Ep & Et & Etime & Ee & Ec).
      destruct (IH (on ev h st) s T) as (? & ? & ?); [congruence..|].
      rewrite <- Etime, <- Ee, <- Ec. by split_and!.
    + assert (step st (PromiseSettles s') = st) as ->.
      { cbn [step]. by rewrite Hp. }
      by apply IH.
    + destruct (IH (step st (TimePasses dt)) s T) as (? & Htime & Hcase); try done;
        split_and!; try assumption; rewrite Htime; cbn; lia.
    + cbn [step]. destruct (decide (due T ≤ time st)%nat) as [Hdue|Hdue].
      * rewrite (run_due_timers_fire st T Ht Hdue).
        set (st1 := emit _ _ _).
        destruct (done_run l st1) as (Hp1 & Ht1 & He1 & Hc1 & Htime1);
          [subst st1; cbn; by rewrite Hp|done|].
        rewrite Hp1, Htime1, Ht1, He1. subst st1. cbn.
        split_and!; [done|done|]. right. split; [done|].
        exists (time st). split_and!; [done|lia|done].
      * rewrite run_due_timers_none.
        -- by apply IH.
        -- rewrite Ht, filter_cons, filter_nil. by rewrite decide_False.
Qed.

(** A schedule either has no settlement or splits at its first one. *)
Lemma first_settlement l :
  Forall (λ a, is_settle a = false) l
  ∨ ∃ pre s rest, l = pre ++ PromiseSettles s :: rest
                  ∧ Forall (λ a, is_settle a = false) pre.
Proof.
  induction l as [|a l [IH|(pre & s & rest & -> & Hpre)]].
  - left. constructor.
  - destruct a as [ev h|s|dt|].
    + left. by constructor.
    + right. exists [], s, l. split; [done|constructor].
    + left. by constructor.
    + left. by constructor.
  - destruct a as [ev h|s'|dt|].
    + right. exists (CallOn ev h :: pre), s, rest. split; [done|by constructor].
    + right. exists [], s', (pre ++ PromiseSettles s :: rest). split; [done|constructor].
    + right. exists (TimePasses dt :: pre), s, rest. split; [done|by constructor].
    + right. exists (RunDueTimers :: pre), s, rest. split; [done|by constructor].
Qed.

(** The state right after the first settlement. *)
Lemma settle_step pre s t0 :
  Forall (λ a, is_settle a = false) pre →
  let st := step (run pre (construct t0)) (PromiseSettles s) in
  promise st = Some s
  ∧ time st = (t0 + elapsed pre)%nat
  ∧ emitted st = []
  ∧ calls st = []
  ∧ timers st
    = [match s with
       | Resolved result => mkTimer (t0 + elapsed pre + 10) "load" [JNum 200; result]
       | Rejected error => mkTimer (t0 + elapsed pre + 10) "error" [JNum 500; error]
       end].
Proof.
  intros Hpre.
  destruct (pending_run pre (construct t0)) as (Hp & Ht & He & Hc & Htime); try done.
  cbn [step]. rewrite Hp. cbn in He, Hc, Htime.
  destruct s; cbn; rewrite Ht, Htime; by split_and!.
Qed.

Lemma run_settled pre s rest t0 :
  run (pre ++ PromiseSettles s :: rest) (construct t0)
  = run rest (step (run pre (construct t0)) (PromiseSettles s)).
Proof. by rewrite run_app. Qed.

Lemma forEach_call_elem hs h l args :
  Forall (λ g, h_throws g = false) hs →
  mkCall h args ∈ forEach_call (hs ++ h :: l) args.
Proof.
  induction 1 as [|g hs Hg _ IH]; cbn.
  - by left.
  - rewrite Hg. by right.
Qed.

(** A handler that is in the list when nothing has been emitted yet, behind
    handlers that do not throw, is called by the emission of its event. *)
Lemma subscribed_called ev h hs :
  Forall (λ g, h_throws g = false) hs →
  ∀ y st l,
    emitted st = [] →
    handlers st !! ev = Some (hs ++ h :: l) →
    ∀ e, emitted (run y st) = [e] → e_event e = ev →
         mkCall h (e_args e) ∈ calls (run y st).
Proof.
  intros Hhs. induction y as [|a y IH]; intros st l He Hh e Hrun Hev.
  - cbn in Hrun. congruence.
  - rewrite run_cons in *. destruct a as [ev' h'|s|dt|].
    + cbn [step] in *. destruct (on_fields ev' h' st) as (_ & _ & _ & Ee & _).
      pose proof (on_handlers ev' h' st ev) as Hon.
      case_bool_decide; [|case_decide as Heq].
      * apply (IH (on ev' h' st) l); try done; congruence.
      * apply (IH (on ev' h' st) (l ++ [h'])); try done; [congruence|].
        rewrite Hon, Heq, Hh. cbn. by rewrite <- app_assoc.
      * apply (IH (on ev' h' st) l); try done; congruence.
    + apply (IH (step st (PromiseSettles s)) l); try done.
      * cbn. destruct (promise st); [done|by destruct s].
      * cbn. destruct (promise st); [done|by destruct s].
    + by apply (IH (step st (TimePasses dt)) l).
    + cbn [step] in *. unfold run_due_timers in *.
      set (ready := filter (λ t, (due t ≤ time st)%nat) (timers st)) in *.
      set (st0 := mkState _ _ _ _ _ _) in *.
      destruct (foldl_emit ready st0) as (Hh1 & _ & _ & _ & He1 & Hc1).
      set (st1 := foldl _ st0 ready) in *.
      destruct ready as [|T ready'].
      * by apply (IH st1 l).
      * destruct (run_grows y st1) as [[es Hes] [cs Hcs]].
        rewrite Hes, He1 in Hrun. subst st0. cbn in Hrun. rewrite He in Hrun.
        cbn in Hrun. injection Hrun as <- _.
        rewrite Hcs, Hc1. cbn in Hev. cbn.
        apply elem_of_app. left. apply elem_of_app. right.
        apply elem_of_app. left. unfold calls_of. rewrite Hev, Hh.
        by apply forEach_call_elem.
Qed.

(** Once the event has been emitted, nothing a schedule does calls a
    handler or emits again. *)
Lemma emitted_is_final x y t0 :
  emitted (run x (construct t0)) ≠ [] →
  calls (run (x ++ y) (construct t0)) = calls (run x (construct t0))
  ∧ emitted (run (x ++ y) (construct t0)) = emitted (run x (construct t0)).
Proof.
  intros Hne.
  destruct (first_settlement x) as [Hx|(pre & s & rest & -> & Hpre)].
  - destruct (pending_run x (construct t0)) as (_ & _ & He & _); try done.
  - destruct (settle_step pre s t0 Hpre) as (Hp & _ & He & _ & Ht).
    rewrite run_app.
    rewrite (run_settled pre s rest t0) in *.
    set (st2 := step _ _) in *.
    destruct (waiting_run rest st2 s _ Hp Ht) as (Hp3 & _ & [(_ & He3 & _)|(Ht3 & _)]).
    + rewrite He3, He in Hne. done.
    + destruct (done_run y (run rest st2)) as (_ & _ & He4 & Hc4 & _);
        [by rewrite Hp3|done|]. done.
Qed.

(** Subscriptions are never removed. *)
Lemma handlers_kept ev h hs y : ∀ st l,
  handlers st !! ev = Some (hs ++ h :: l) →
  ∃ l', handlers (run y st) !! ev = Some (hs ++ h :: l').
Proof.
  induction y as [|a y IH]; intros st l Hh; [by exists l|].
  rewrite run_cons. destruct a as [ev' h'|s|dt|].
  - cbn [step]. pose proof (on_handlers ev' h' st ev) as Hon.
    case_bool_decide; [|case_decide as Heq].
    + apply (IH _ l). congruence.
    + apply (IH _ (l ++ [h'])). rewrite Hon, Heq, Hh. cbn. by rewrite <- app_assoc.
    + apply (IH _ l). congruence.
  - apply (IH _ l). cbn. destruct (promise st); [done|by destruct s].
  - by apply (IH _ l).
  - apply (IH _ l). cbn. unfold run_due_timers.
    destruct (foldl_emit (filter (λ t, (due t ≤ time st)%nat) (timers st))
                (mkState (handlers st) (promise st)
                   (filter (λ t, ¬ (due t ≤ time st)%nat) (timers st))
                   (time st) (emitted st) (calls st))) as (Hh1 & _).
    by rewrite Hh1.
Qed.

End AjaxFacts.

(** C8.  Every adapter emits one event for the settlement of the promise it
    wraps and no other: nothing before the promise settles, nothing until 10
    time units have passed since, and from the first run of the event loop
    after that exactly one emission, ["load"] with status 200 and the
    resolved value when the promise resolved, ["error"] with status 500 and
    the rejection reason when it rejected, whatever that reason is. *)
Theorem shim_emits_one_event (t0 : nat) (s : LocalAjax.Settlement)
    (pre : list LocalAjax.Action) :
  Forall (λ a, LocalAjax.is_settle a = false) pre →
  let event := match s with
               | LocalAjax.Resolved _ => "load"
               | LocalAjax.Rejected _ => "error"
               end in
  let args := match s with
              | LocalAjax.Resolved result => [JNum 200; result]
              | LocalAjax.Rejected error => [JNum 500; error]
              end in
  let start := LocalAjax.construct t0 in
  let settled := pre ++ [LocalAjax.PromiseSettles s] in
  LocalAjax.emitted (LocalAjax.run pre start) = []
  ∧ (∀ mid, (LocalAjax.elapsed mid < 10)%nat →
       LocalAjax.emitted (LocalAjax.run (settled ++ mid) start) = [])
  ∧ (∀ mid post, (10 ≤ LocalAjax.elapsed mid)%nat →
       ∃ t, (t0 + LocalAjax.elapsed pre + 10 ≤ t)%nat
         ∧ LocalAjax.emitted
             (LocalAjax.run (settled ++ mid ++ LocalAjax.RunDueTimers :: post) start)
           = [LocalAjax.mkEmission t event args])
  ∧ (∀ rest,
       LocalAjax.emitted (LocalAjax.run (settled ++ rest) start) = []
       ∨ ∃ t, (t0 + LocalAjax.elapsed pre + 10 ≤ t)%nat
           ∧ LocalAjax.emitted (LocalAjax.run (settled ++ rest) start)
             = [LocalAjax.mkEmission t event args]).
Proof.
  intros Hpre event args start settled. subst start.
  destruct (settle_step pre s t0 Hpre) as (Hp & Htime & He & Hc & Ht).
  set (start := LocalAjax.construct t0) in *.
  set (st2 := LocalAjax.step (LocalAjax.run pre start) (LocalAjax.PromiseSettles s)) in *.
  set (T := match s with
            | LocalAjax.Resolved result =>
                LocalAjax.mkTimer (t0 + LocalAjax.elapsed pre + 10) "load" [JNum 200; result]
            | LocalAjax.Rejected error =>
                LocalAjax.mkTimer (t0 + LocalAjax.elapsed pre + 10) "error" [JNum 500; error]
            end) in *.
  assert (LocalAjax.due T = (t0 + LocalAjax.elapsed pre + 10)%nat
          ∧ LocalAjax.t_event T = event ∧ LocalAjax.t_args T = args) as (HdT & HeT & HaT).
  { by destruct s. }
  assert (∀ rest, LocalAjax.run (settled ++ rest) start = LocalAjax.run rest st2) as Hsplit.
  { intros rest. subst settled. rewrite <- app_assoc. apply run_settled. }
  split_and!.
  - by destruct (pending_run pre start) as (_ & _ & ? & _).
  - intros mid Hmid. rewrite Hsplit.
    destruct (waiting_run mid st2 s T Hp Ht)
      as (_ & Htm & [(_ & He3 & _)|(_ & t' & Hdue & Hle & _)]).
    + by rewrite He3.
    + exfalso. lia.
  - intros mid post Hmid. rewrite Hsplit, run_app, run_cons.
    destruct (waiting_run mid st2 s T Hp Ht)
      as (Hp3 & Htm & [(Ht3 & He3 & _)|(Ht3 & t' & Hdue & Hle & He3)]).
    + set (st3 := LocalAjax.run mid st2) in *.
      assert (LocalAjax.due T ≤ LocalAjax.time st3)%nat as Hfire by lia.
      cbn [LocalAjax.step]. rewrite (run_due_timers_fire st3 T Ht3 Hfire).
      set (st4 := LocalAjax.emit _ _ _).
      destruct (done_run post st4) as (_ & _ & He5 & _);
        [subst st4; cbn; by rewrite Hp3|done|].
      exists (LocalAjax.time st3). split; [lia|].
      rewrite He5. subst st4. cbn. by rewrite He3, He, HeT, HaT.
    + destruct (done_run (LocalAjax.RunDueTimers :: post) (LocalAjax.run mid st2))
        as (_ & _ & He5 & _); [by rewrite Hp3|done|].
      rewrite run_cons in He5.
      exists t'. split; [lia|]. by rewrite He5, He3, He, HeT, HaT.
  - intros rest. rewrite Hsplit.
    destruct (waiting_run rest st2 s T Hp Ht)
      as (_ & _ & [(_ & He3 & _)|(_ & t' & Hdue & _ & He3)]).
    + left. by rewrite He3.
    + right. exists t'. split; [lia|]. by rewrite He3, He, HeT, HaT.
Qed.

(** The theorem for a call site that subscribes to both events, a promise
    that then rejects, and an event loop that runs the timer 12 time units
    later: one ["error"] emission with status 500, and the ["error"] handler
    is the only one called. *)
Lemma shim_emits_one_event_witness :
  Forall (λ a, LocalAjax.is_settle a = false)
    [LocalAjax.CallOn "load" onLoad; LocalAjax.CallOn "error" onError]
  ∧ (10 ≤ LocalAjax.elapsed [LocalAjax.TimePasses 12])%nat
  ∧ let final :=
      LocalAjax.run
        ([LocalAjax.CallOn "load" onLoad; LocalAjax.CallOn "error" onError]
         ++ [LocalAjax.PromiseSettles (LocalAjax.Rejected (JStr "Project not found"))]
         ++ [LocalAjax.TimePasses 12] ++ [LocalAjax.RunDueTimers])
        (LocalAjax.construct 0) in
    (∃ t, (0 + 0 + 10 ≤ t)%nat
       ∧ LocalAjax.emitted final
         = [LocalAjax.mkEmission t "error" [JNum 500; JStr "Project not found"]])
    ∧ LocalAjax.calls final
      = [LocalAjax.mkCall onError [JNum 500; JStr "Project not found"]].
Proof.
  split; [by repeat constructor|]. split; [cbn; lia|].
  split; [|reflexivity].
  destruct (shim_emits_one_event 0 (LocalAjax.Rejected (JStr "Project not found"))
              [LocalAjax.CallOn "load" onLoad; LocalAjax.CallOn "error" onError])
    as (_ & _ & Hfires & _); [by repeat constructor|].
  destruct (Hfires [LocalAjax.TimePasses 12] []) as (t & Ht & He); [cbn; lia|].
  exists t. split; [exact Ht|]. exact He.
Defined.

(** C9 (amended).  A handler subscribed (to "load", "error" or any event
    name that is not an inherited property name) while the event has not
    been emitted yet -- before the promise settles, or after it has settled
    but before the delayed callback has run -- is called with the status and
    the value of the emission of its event, provided no handler subscribed
    earlier to that event throws.  A handler subscribed once the event has
    been emitted is stored and never called, and nothing is emitted again. *)
Theorem subscriber_is_called_iff_before_emission (t0 : nat)
    (x y : list LocalAjax.Action) (event : string) (h : LocalAjax.Handler) :
  event ∉ LocalAjax.objectPrototypeKeys →
  let before := LocalAjax.run x (LocalAjax.construct t0) in
  let after :=
    LocalAjax.run (x ++ LocalAjax.CallOn event h :: y) (LocalAjax.construct t0) in
  (LocalAjax.emitted before = [] →
   (∀ g, g ∈ default [] (LocalAjax.handlers before !! event) →
         LocalAjax.h_throws g = false) →
   ∀ e, LocalAjax.emitted after = [e] → LocalAjax.e_event e = event →
        LocalAjax.mkCall h (LocalAjax.e_args e) ∈ LocalAjax.calls after)
  ∧ (LocalAjax.emitted before ≠ [] →
     LocalAjax.calls after = LocalAjax.calls before
     ∧ LocalAjax.emitted after = LocalAjax.emitted before
     ∧ ∃ hs, LocalAjax.handlers after !! event = Some hs ∧ h ∈ hs).
Proof.
  intros Hevent before after.
  assert (LocalAjax.handlers (LocalAjax.on event h before) !! event
          = Some (default [] (LocalAjax.handlers before !! event) ++ [h])) as Hstored.
  { rewrite on_handlers. rewrite bool_decide_eq_false_2 by done.
    by rewrite decide_True. }
  split.
  - intros He Hhs e Hafter Hev. subst after. rewrite run_app, run_cons in *.
    fold before in Hafter |- *.
    apply (subscribed_called event h (default [] (LocalAjax.handlers before !! event))
             ltac:(by apply Forall_forall) y _ []); try done.
    cbn [LocalAjax.step]. by destruct (on_fields event h before) as (_ & _ & _ & -> & _).
  - intros Hne.
    destruct (emitted_is_final x (LocalAjax.CallOn event h :: y) t0 Hne) as [Hc He].
    split; [done|]. split; [done|].
    subst after. rewrite run_app, run_cons. fold before.
    destruct (handlers_kept event h (default [] (LocalAjax.handlers before !! event)) y
                (LocalAjax.step before (LocalAjax.CallOn event h)) []) as [l' Hl'].
    { exact Hstored. }
    eexists. split; [exact Hl'|]. apply elem_of_app. right. by left.
Qed.

(** The theorem for a call site that subscribes 5 time units after the
    promise has resolved: the handler is called with 200 and the value. *)
Lemma subscriber_is_called_iff_before_emission_witness :
  let x := [LocalAjax.PromiseSettles (LocalAjax.Resolved (JStr "ok"));
            LocalAjax.TimePasses 5] in
  let y := [LocalAjax.TimePasses 5; LocalAjax.RunDueTimers] in
  let before := LocalAjax.run x (LocalAjax.construct 0) in
  let after := LocalAjax.run (x ++ LocalAjax.CallOn "load" onLoad :: y)
                 (LocalAjax.construct 0) in
  ("load" ∉ LocalAjax.objectPrototypeKeys)
  ∧ LocalAjax.promise before = Some (LocalAjax.Resolved (JStr "ok"))
  ∧ LocalAjax.emitted before = []
  ∧ (∀ g, g ∈ default [] (LocalAjax.handlers before !! "load") →
          LocalAjax.h_throws g = false)
  ∧ LocalAjax.emitted after = [LocalAjax.mkEmission 10 "load" [JNum 200; JStr "ok"]]
  ∧ LocalAjax.mkCall onLoad [JNum 200; JStr "ok"] ∈ LocalAjax.calls after.
Proof.
  intros x y before after.
  assert (∀ g, g ∈ default [] (LocalAjax.handlers before !! "load") →
               LocalAjax.h_throws g = false) as Hnone.
  { intros g Hg. vm_compute in Hg. by apply elem_of_nil in Hg. }
  assert ("load" ∉ LocalAjax.objectPrototypeKeys) as Hload.
  { apply (bool_decide_unpack _). reflexivity. }
  split; [exact Hload|].
  split; [reflexivity|]. split; [reflexivity|]. split; [exact Hnone|].
  split; [reflexivity|].
  destruct (subscriber_is_called_iff_before_emission 0 x y "load" onLoad Hload)
    as [Hcalled _].
  apply (Hcalled eq_refl Hnone (LocalAjax.mkEmission 10 "load" [JNum 200; JStr "ok"]));
    reflexivity.
Defined.

(** C9 as stated fails: a handler subscribed after the delayed callback has
    run is stored in the list and never called, however long the call site
    waits. *)
Lemma late_subscriber_is_never_called :
  let x := [LocalAjax.PromiseSettles (LocalAjax.Resolved (JStr "ok"));
            LocalAjax.TimePasses 10; LocalAjax.RunDueTimers] in
  let y := [LocalAjax.TimePasses 1000; LocalAjax.RunDueTimers] in
  let after := LocalAjax.run (x ++ LocalAjax.CallOn "load" onLoad :: y)
                 (LocalAjax.construct 0) in
  LocalAjax.promise (LocalAjax.run x (LocalAjax.construct 0))
  = Some (LocalAjax.Resolved (JStr "ok"))
  ∧ LocalAjax.handlers after !! "load" = Some [onLoad]
  ∧ LocalAjax.emitted after = [LocalAjax.mkEmission 10 "load" [JNum 200; JStr "ok"]]
  ∧ LocalAjax.calls after = [].
Proof. by vm_compute. Qed.

(** * Further properties *)

(** ** Listing: order and content *)

Lemma key_le_trans {R : Type} : Transitive (@key_le R).
Proof. intros x y z. unfold key_le. lia. Qed.

Lemma key_le_total {R : Type} : Total (@key_le R).
Proof. intros x y. unfold key_le. lia. Qed.

Lemma StronglySorted_lookup {A} (R : relation A) (l : list A) (i j : nat) x y :
  StronglySorted R l → (i < j)%nat → l !! i = Some x → l !! j = Some y → R x y.
Proof.
  intros Hs Hij Hx Hy.
  rewrite <- (take_drop j l) in Hs.
  apply StronglySorted_app in Hs as (Hs & _ & _). apply Hs.
  - apply (list_elem_of_lookup_2 _ i). by rewrite lookup_take_lt.
  - apply (list_elem_of_lookup_2 _ 0%nat). rewrite lookup_drop.
    by rewrite Nat.add_0_r.
Qed.

Lemma StronglySorted_filter {A} (R : relation A) (P : A → Prop)
    `{!∀ x, Decision (P x)} (l : list A) :
  StronglySorted R l → StronglySorted R (filter P l).
Proof.
  induction 1 as [|x l Hs IH Hall]; [constructor|].
  rewrite filter_cons. case_decide; [|done].
  constructor; [done|].
  apply Forall_forall. intros y [_ Hy]%list_elem_of_filter.
  by eapply Forall_forall in Hall.
Qed.

Section IndexFacts.
Context {R : Type}.
Variable owner : R → Z.

Lemma index_only_sorted pid (t : gmap Z R) :
  StronglySorted key_le (index_only owner pid t).
Proof.
  unfold index_only.
  apply (@StronglySorted_merge_sort _ key_le _ key_le_trans key_le_total).
Qed.

Lemma index_only_NoDup pid (t : gmap Z R) : NoDup (index_only owner pid t).
Proof.
  unfold index_only. rewrite merge_sort_Permutation.
  apply NoDup_filter, NoDup_map_to_list.
Qed.

(** The index holds what it holds in one order only. *)
Lemma index_only_eq pid (t : gmap Z R) (l : list (Z * R)) :
  StronglySorted key_le l → NoDup l →
  (∀ k r, (k, r) ∈ l ↔ t !! k = Some r ∧ owner r = pid) →
  index_only owner pid t = l.
Proof.
  intros Hsorted Hnodup Hmem.
  apply (StronglySorted_unique_strong key_le).
  - intros [k1 r1] [k2 r2] H1%elem_of_index_only H2%Hmem H12 H21.
    unfold key_le in *. cbn in *. assert (k1 = k2) as -> by lia.
    destruct H1 as [H1 _], H2 as [H2 _]. congruence.
  - apply index_only_sorted.
  - done.
  - apply NoDup_Permutation; [apply index_only_NoDup|done|].
    intros [k r]. by rewrite elem_of_index_only, Hmem.
Qed.

(** A record added under a key above all others goes to the end of its
    owner's index and leaves the other indexes alone. *)
Lemma index_only_insert_max pid (t : gmap Z R) k r :
  (∀ k' r', t !! k' = Some r' → k' < k) →
  index_only owner pid (<[k := r]> t)
  = index_only owner pid t ++ (if decide (owner r = pid) then [(k, r)] else []).
Proof.
  intros Hmax.
  assert (t !! k = None) as Hfresh.
  { destruct (t !! k) eqn:E; [|done]. apply Hmax in E. lia. }
  apply index_only_eq.
  - apply StronglySorted_app. split_and!.
    + intros [k1 r1] [k2 r2] [H1 _]%elem_of_index_only H2.
      destruct (decide (owner r = pid)); [|by apply elem_of_nil in H2].
      apply list_elem_of_singleton in H2 as [= -> ->].
      unfold key_le. cbn. apply Hmax in H1. lia.
    + apply index_only_sorted.
    + destruct (decide (owner r = pid)); repeat constructor.
  - apply NoDup_app. split_and!.
    + apply index_only_NoDup.
    + intros [k1 r1] [H1 _]%elem_of_index_only H2.
      destruct (decide (owner r = pid)); [|by apply elem_of_nil in H2].
      apply list_elem_of_singleton in H2 as [= -> ->]. congruence.
    + destruct (decide (owner r = pid)); [apply NoDup_singleton|apply NoDup_nil_2].
  - intros k1 r1. rewrite elem_of_app, elem_of_index_only, lookup_insert.
    destruct (decide (owner r = pid)) as [Ho|Ho].
    + rewrite list_elem_of_singleton. case_decide as Hk.
      * subst k1. split.
        -- intros [[H1 _]|[= ->]]; [congruence|done].
        -- intros [[= ->] _]. by right.
      * split.
        -- intros [?|[= ? ?]]; [done|congruence].
        -- intros ?. by left.
    + rewrite elem_of_nil. case_decide as Hk.
      * subst k1. split.
        -- intros [[H1 _]|[]]. congruence.
        -- intros [[= ->] ?]. done.
      * tauto.
Qed.

(** Keys in an index go strictly up. *)
Lemma index_only_strict pid (t : gmap Z R) :
  StronglySorted (λ x y, x.1 < y.1 ∧ t !! x.1 = Some x.2 ∧ t !! y.1 = Some y.2)
    (index_only owner pid t).
Proof.
  pose proof (index_only_sorted pid t) as Hs.
  pose proof (index_only_NoDup pid t) as Hn.
  assert (∀ k r, (k, r) ∈ index_only owner pid t → t !! k = Some r) as Hin.
  { by intros k r [? _]%elem_of_index_only. }
  induction Hs as [|x l Hs IH Hall]; [constructor|].
  apply NoDup_cons in Hn as [Hx Hn].
  constructor.
  - apply IH; [done|]. intros k r Hkr. apply Hin. by right.
  - apply Forall_forall. intros y Hy.
    eapply Forall_forall in Hall; [|done]. unfold key_le in Hall.
    destruct x as [k1 r1], y as [k2 r2]. cbn in *.
    assert (t !! k1 = Some r1) by (apply Hin; left).
    assert (t !! k2 = Some r2) by (apply Hin; by right).
    split_and!; [|done|done].
    destruct (decide (k1 = k2)) as [->|]; [|lia].
    exfalso. apply Hx. by replace r1 with r2 by congruence.
Qed.

Variable key : R → Z.

(** With records stored under their ids, the index hands them out by
    strictly ascending id. *)
Lemma index_getAll_sorted pid (t : gmap Z R) :
  keyed_by key t →
  StronglySorted (λ x y, key x < key y) (index_getAll owner pid t).
Proof.
  intros Hk. unfold index_getAll.
  eapply StronglySorted_fmap; [|apply index_only_strict].
  intros [k1 r1] [k2 r2] (Hlt & H1 & H2). cbn in *.
  by rewrite (Hk _ _ H1), (Hk _ _ H2).
Qed.

Lemma elem_of_index_getAll pid (t : gmap Z R) r :
  keyed_by key t →
  r ∈ index_getAll owner pid t ↔ t !! key r = Some r ∧ owner r = pid.
Proof.
  intros Hk. unfold index_getAll. rewrite list_elem_of_fmap. split.
  - intros ([k r'] & -> & [Hl Ho]%elem_of_index_only). cbn.
    by rewrite (Hk _ _ Hl).
  - intros [Hl Ho]. exists (key r, r). split; [done|].
    by apply elem_of_index_only.
Qed.

(** A record added under an id above all others comes last in the listing
    of its owner and does not show in any other. *)
Lemma index_getAll_insert_max pid (t : gmap Z R) k r :
  (∀ k' r', t !! k' = Some r' → k' < k) →
  index_getAll owner pid (<[k := r]> t)
  = index_getAll owner pid t ++ (if decide (owner r = pid) then [r] else []).
Proof.
  intros Hmax. unfold index_getAll.
  rewrite (index_only_insert_max _ _ _ _ Hmax), fmap_app.
  by destruct (decide (owner r = pid)).
Qed.

End IndexFacts.

(** X1.  On a well-formed world [listAssets] and [listScenes] resolve
    without changing anything and return exactly the stored records whose
    [projectId] is the one asked for, narrowed to one branch when a
    non-empty branch name is given; the records come by strictly ascending
    id, so none is returned twice. *)
Theorem list_returns_owned_records_by_ascending_id (w : World) (pid : Z)
    (b : option string) :
  wf w →
  let wanted (branch : string) := b = None ∨ b = Some "" ∨ b = Some branch in
  (∃ l, listAssets pid b w = (Ok l, w)
     ∧ (∀ a, a ∈ l ↔ assets (idb w) !! a_id a = Some a
                     ∧ a_projectId a = pid ∧ wanted (a_branchId a))
     ∧ (∀ (i j : nat) x y, (i < j)%nat → l !! i = Some x → l !! j = Some y →
          a_id x < a_id y))
  ∧ (∃ l, listScenes pid b w = (Ok l, w)
     ∧ (∀ s, s ∈ l ↔ scenes (idb w) !! s_id s = Some s
                     ∧ s_projectId s = pid ∧ wanted (s_branchId s))
     ∧ (∀ (i j : nat) x y, (i < j)%nat → l !! i = Some x → l !! j = Some y →
          s_id x < s_id y)).
Proof.
  intros Hwf wanted. subst wanted. cbn beta. split.
  - eexists. split; [apply listAssets_ready, Hwf|]. cbn zeta.
    pose proof (index_getAll_sorted a_projectId a_id pid _ (wf_asset_keys _ Hwf))
      as Hsorted.
    pose proof (λ r, elem_of_index_getAll a_projectId a_id pid _ r (wf_asset_keys _ Hwf))
      as Hmem.
    destruct b as [b|]; [destruct (String.eqb_spec b "") as [->|Hb]|].
    + split; [|intros; by eapply (StronglySorted_lookup _ _ _ _ _ _ Hsorted)].
      intros a. rewrite Hmem. split; [intros [? ?]; auto|by intros (? & ? & _)].
    + split.
      * intros a. rewrite list_elem_of_filter, Hmem. split.
        -- intros (Hbr & ? & ?). split_and!; try done. right. right. by rewrite Hbr.
        -- intros (? & ? & [?|[?|?]]); try congruence. split; [congruence|done].
      * intros i j x y Hij Hx Hy.
        eapply (StronglySorted_lookup _ _ _ _ _ _
                  (StronglySorted_filter _ _ _ Hsorted)); eauto.
    + split; [|intros; by eapply (StronglySorted_lookup _ _ _ _ _ _ Hsorted)].
      intros a. rewrite Hmem. split; [intros [? ?]; auto|by intros (? & ? & _)].
  - eexists. split; [apply listScenes_ready, Hwf|]. cbn zeta.
    pose proof (index_getAll_sorted s_projectId s_id pid _ (wf_scene_keys _ Hwf))
      as Hsorted.
    pose proof (λ r, elem_of_index_getAll s_projectId s_id pid _ r (wf_scene_keys _ Hwf))
      as Hmem.
    destruct b as [b|]; [destruct (String.eqb_spec b "") as [->|Hb]|].
    + split; [|intros; by eapply (StronglySorted_lookup _ _ _ _ _ _ Hsorted)].
      intros a. rewrite Hmem. split; [intros [? ?]; auto|by intros (? & ? & _)].
    + split.
      * intros a. rewrite list_elem_of_filter, Hmem. split.
        -- intros (Hbr & ? & ?). split_and!; try done. right. right. by rewrite Hbr.
        -- intros (? & ? & [?|[?|?]]); try congruence. split; [congruence|done].
      * intros i j x y Hij Hx Hy.
        eapply (StronglySorted_lookup _ _ _ _ _ _
                  (StronglySorted_filter _ _ _ Hsorted)); eauto.
    + split; [|intros; by eapply (StronglySorted_lookup _ _ _ _ _ _ Hsorted)].
      intros a. rewrite Hmem. split; [intros [? ?]; auto|by intros (? & ? & _)].
Qed.

(** The theorem at the demo world: the master branch of Project 1000 lists
    "Models" before "Hero.glb". *)
Lemma list_returns_owned_records_by_ascending_id_witness :
  wf demoWorld
  ∧ ∃ l, listAssets 1000 (Some "master") demoWorld = (Ok l, demoWorld)
      ∧ a_name <$> l = ["Models"; "Hero.glb"]
      ∧ (∀ (i j : nat) x y, (i < j)%nat → l !! i = Some x → l !! j = Some y →
           a_id x < a_id y).
Proof.
  split; [exact wf_demoWorld|].
  destruct (list_returns_owned_records_by_ascending_id demoWorld 1000 (Some "master")
              wf_demoWorld) as [(l & Hl & _ & Hsorted) _].
  exists l. split; [exact Hl|]. split; [|exact Hsorted].
  vm_compute in Hl. injection Hl as <-. reflexivity.
Defined.

(** X2.  On a well-formed world [listProjects] resolves without changing
    anything and returns every stored Project, and nothing else, by strictly
    ascending id; the list is as long as the store is large. *)
Theorem listProjects_returns_every_project_once (w : World) :
  wf w →
  ∃ l, listProjects w = (Ok l, w)
    ∧ (∀ p, p ∈ l ↔ projects (idb w) !! p_id p = Some p)
    ∧ (∀ (i j : nat) x y, (i < j)%nat → l !! i = Some x → l !! j = Some y →
         p_id x < p_id y)
    ∧ length l = size (projects (idb w)).
Proof.
  intros Hwf. eexists. split.
  { unfold listProjects. rewrite (bind_ok _ _ _ _ _ (init_ready w (wf_ready _ Hwf))).
    reflexivity. }
  pose proof (wf_project_keys _ Hwf) as Hk.
  set (t := projects (idb w)) in *.
  assert (merge_sort key_le (map_to_list t) = index_only (λ _ : Project, 0) 0 t) as Heq.
  { unfold index_only. f_equal. symmetry. apply filter_all. done. }
  rewrite Heq. fold (index_getAll (λ _ : Project, 0) 0 t). split_and!.
  - intros p. rewrite (elem_of_index_getAll _ p_id 0 t p Hk).
    split; [by intros [? _]|done].
  - intros i j x y Hij Hx Hy.
    by eapply (StronglySorted_lookup _ _ _ _ _ _
                 (index_getAll_sorted (λ _, 0) p_id 0 t Hk)).
  - unfold index_getAll. rewrite length_fmap, <- Heq.
    rewrite merge_sort_Permutation. apply length_map_to_list.
Qed.

(** The theorem at the demo world, which holds the one Project "Demo". *)
Lemma listProjects_returns_every_project_once_witness :
  wf demoWorld
  ∧ ∃ l, listProjects demoWorld = (Ok l, demoWorld)
      ∧ p_name <$> l = ["Demo"]
      ∧ length l = size (projects (idb demoWorld)).
Proof.
  split; [exact wf_demoWorld|].
  destruct (listProjects_returns_every_project_once demoWorld wf_demoWorld)
    as (l & Hl & _ & _ & Hlen).
  exists l. split; [exact Hl|]. split; [|exact Hlen].
  vm_compute in Hl. injection Hl as <-. reflexivity.
Defined.

(** ** Create, then read *)

Lemma listProjects_ready w :
  initPromise (mgr w) = true →
  listProjects w = (Ok (index_getAll (λ _ : Project, 0) 0 (projects (idb w))), w).
Proof.
  intros Hi. unfold listProjects. rewrite (bind_ok _ _ _ _ _ (init_ready w Hi)).
  unfold read_db, index_getAll, index_only. do 4 f_equal.
  symmetry. by apply filter_all.
Qed.



(** ** Delete of one Asset or Scene *)

Lemma deleteAsset_ok x w :
  deleteAsset x w
  = (Ok tt, mkWorld (mgr (init w).2)
              (set_assets (delete x (assets (idb w))) (idb w)) (ticks w)).
Proof.
  unfold deleteAsset, init. destruct w as [[i np na ns] db tk].
  by destruct i; exec.
Qed.

Lemma deleteScene_ok x w :
  deleteScene x w
  = (Ok tt, mkWorld (mgr (init w).2)
              (set_scenes (delete x (scenes (idb w))) (idb w)) (ticks w)).
Proof.
  unfold deleteScene, init. destruct w as [[i np na ns] db tk].
  by destruct i; exec.
Qed.

(** X4.  [deleteAsset] and [deleteScene] never reject, whether or not the
    id is stored.  They remove the record under that id and nothing else:
    every other Asset (an Asset whose [parent] is the deleted one included),
    the Projects, the Scenes and the counters stay as they were. *)
Theorem delete_removes_one_record_and_never_rejects (w : World) (x : Z) :
  (∃ w', deleteAsset x w = (Ok tt, w')
     ∧ getAsset x w' = (Ok None, w')
     ∧ (∀ k, k ≠ x → assets (idb w') !! k = assets (idb w) !! k)
     ∧ (∀ k c, assets (idb w) !! k = Some c → k ≠ x → a_parent c = ParentId x →
          assets (idb w') !! k = Some c)
     ∧ projects (idb w') = projects (idb w)
     ∧ scenes (idb w') = scenes (idb w)
     ∧ metadata (idb w') = metadata (idb w)
     ∧ (assets (idb w) !! x = None → idb w' = idb w)
     ∧ deleteAsset x w' = (Ok tt, w'))
  ∧ (∃ w', deleteScene x w = (Ok tt, w')
     ∧ getScene x w' = (Ok None, w')
     ∧ (∀ k, k ≠ x → scenes (idb w') !! k = scenes (idb w) !! k)
     ∧ projects (idb w') = projects (idb w)
     ∧ assets (idb w') = assets (idb w)
     ∧ metadata (idb w') = metadata (idb w)
     ∧ (scenes (idb w) !! x = None → idb w' = idb w)
     ∧ deleteScene x w' = (Ok tt, w')).
Proof.
  assert (initPromise (mgr (init w).2) = true) as Hi by apply init_initPromise.
  split.
  - eexists. split; [apply deleteAsset_ok|].
    split_and!; cbn.
    + rewrite getAsset_ready by done. cbn. by rewrite lookup_delete_eq.
    + intros k Hk. by rewrite lookup_delete_ne.
    + intros k c Hc Hk _. by rewrite lookup_delete_ne.
    + done.
    + done.
    + done.
    + intros Hnone. rewrite delete_id by done. by destruct (idb w).
    + rewrite deleteAsset_ok, init_ready by exact Hi. cbn.
      unfold set_assets. cbn. do 3 f_equal.
      apply delete_id, lookup_delete_eq.
  - eexists. split; [apply deleteScene_ok|].
    split_and!; cbn.
    + rewrite getScene_ready by done. cbn. by rewrite lookup_delete_eq.
    + intros k Hk. by rewrite lookup_delete_ne.
    + done.
    + done.
    + done.
    + intros Hnone. rewrite delete_id by done. by destruct (idb w).
    + rewrite deleteScene_ok, init_ready by exact Hi. cbn.
      unfold set_scenes. cbn. do 3 f_equal.
      apply delete_id, lookup_delete_eq.
Qed.

(** ** Update of one record *)

Lemma keyed_insert {R} (key : R → Z) (t : gmap Z R) x r0 r' :
  keyed_by key t → t !! x = Some r0 → key r' = x →
  ∀ k r, <[x := r']> t !! k = Some r → key r = k ∧ is_Some (t !! k).
Proof.
  intros Hkey Hx Hr' k r. destruct (decide (k = x)) as [->|Hne].
  - rewrite lookup_insert_eq. intros [= <-]. split; [done|by eexists].
  - rewrite lookup_insert_ne by done. by apply keyed_kept.
Qed.

(** X5.  An update of a stored record rewrites the record under the id
    addressed and nothing else: every other record of the store, the two
    other stores, the saved counters and the counters in memory stay as they
    were, no record is added (a patch carrying another [id] included), and
    the world stays well-formed. *)
Theorem update_changes_only_the_addressed_record (clock : nat → Timestamp)
    (w : World) (x : Z) :
  wf w →
  (∀ P d, projects (idb w) !! x = Some P →
     ∃ P' w', updateProject clock x d w = (Ok P', w')
       ∧ getProject x w' = (Ok (Some P'), w')
       ∧ (∀ k, k ≠ x → projects (idb w') !! k = projects (idb w) !! k)
       ∧ size (projects (idb w')) = size (projects (idb w))
       ∧ assets (idb w') = assets (idb w)
       ∧ scenes (idb w') = scenes (idb w)
       ∧ metadata (idb w') = metadata (idb w)
       ∧ mgr w' = mgr w
       ∧ wf w')
  ∧ (∀ A d, assets (idb w) !! x = Some A →
     ∃ A' w', updateAsset clock x d w = (Ok A', w')
       ∧ getAsset x w' = (Ok (Some A'), w')
       ∧ (∀ k, k ≠ x → assets (idb w') !! k = assets (idb w) !! k)
       ∧ size (assets (idb w')) = size (assets (idb w))
       ∧ projects (idb w') = projects (idb w)
       ∧ scenes (idb w') = scenes (idb w)
       ∧ metadata (idb w') = metadata (idb w)
       ∧ mgr w' = mgr w
       ∧ wf w')
  ∧ (∀ S0 d, scenes (idb w) !! x = Some S0 →
     ∃ S' w', updateScene clock x d w = (Ok S', w')
       ∧ getScene x w' = (Ok (Some S'), w')
       ∧ (∀ k, k ≠ x → scenes (idb w') !! k = scenes (idb w) !! k)
       ∧ size (scenes (idb w')) = size (scenes (idb w))
       ∧ projects (idb w') = projects (idb w)
       ∧ assets (idb w') = assets (idb w)
       ∧ metadata (idb w') = metadata (idb w)
       ∧ mgr w' = mgr w
       ∧ wf w').
Proof.
  intros Hwf. pose proof (wf_ready _ Hwf) as Hi.
  assert (mgr (init w).2 = mgr w) as Hm by by rewrite (init_ready _ Hi).
  split_and!.
  - intros P d HP. eexists _, _. split; [by apply updateProject_ok|].
    rewrite Hm. split_and!; cbn; try done.
    + rewrite getProject_ready by done. cbn. by rewrite lookup_insert_eq.
    + intros k Hk. by rewrite lookup_insert_ne.
    + by erewrite map_size_insert_Some.
    + destruct w as [m db t]. eapply wf_shrink; [exact Hwf|..]; cbn.
      * by eapply keyed_insert; [apply Hwf|..].
      * apply keyed_kept, Hwf.
      * apply keyed_kept, Hwf.
  - intros A d HA. eexists _, _. split; [by apply updateAsset_ok|].
    rewrite Hm. split_and!; cbn; try done.
    + rewrite getAsset_ready by done. cbn. by rewrite lookup_insert_eq.
    + intros k Hk. by rewrite lookup_insert_ne.
    + by erewrite map_size_insert_Some.
    + destruct w as [m db t]. eapply wf_shrink; [exact Hwf|..]; cbn.
      * apply keyed_kept, Hwf.
      * by eapply keyed_insert; [apply Hwf|..].
      * apply keyed_kept, Hwf.
  - intros S0 d HS. eexists _, _. split; [by apply updateScene_ok|].
    rewrite Hm. split_and!; cbn; try done.
    + rewrite getScene_ready by done. cbn. by rewrite lookup_insert_eq.
    + intros k Hk. by rewrite lookup_insert_ne.
    + by erewrite map_size_insert_Some.
    + destruct w as [m db t]. eapply wf_shrink; [exact Hwf|..]; cbn.
      * apply keyed_kept, Hwf.
      * apply keyed_kept, Hwf.
      * by eapply keyed_insert; [apply Hwf|..].
Qed.

(** The theorem at the demo world: a patch of Asset 1001 that carries the
    id 1000 leaves Asset 1000 alone. *)
Lemma update_changes_only_the_addressed_record_witness :
  wf demoWorld
  ∧ ∃ A, assets (idb demoWorld) !! 1001 = Some A
    ∧ ∃ A' w',
        updateAsset tickingClock 1001
          (mkPartialAsset (Some 1000) None None (Some "Hero2.glb") None None None None
             None None None) demoWorld = (Ok A', w')
        ∧ a_id A' = 1001
        ∧ assets (idb w') !! 1000 = assets (idb demoWorld) !! 1000
        ∧ size (assets (idb w')) = 2%nat.
Proof.
  split; [exact wf_demoWorld|].
  assert (∃ A, assets (idb demoWorld) !! 1001 = Some A) as [A HA].
  { eexists. vm_compute. reflexivity. }
  exists A. split; [exact HA|].
  destruct (update_changes_only_the_addressed_record tickingClock demoWorld 1001
              wf_demoWorld) as (_ & Hassets & _).
  destruct (Hassets A
              (mkPartialAsset (Some 1000) None None (Some "Hero2.glb") None None None
                 None None None None) HA)
    as (A' & w' & Hu & _ & Hother & Hsize & _).
  exists A', w'. split; [exact Hu|].
  split; [|split; [by apply Hother|]].
  - vm_compute in HA. apply (inj Some) in HA. subst A.
    vm_compute in Hu. by injection Hu as <- <-.
  - rewrite Hsize. vm_compute. reflexivity.
Defined.

(** X6.  An update that sets [projectId] moves the Asset (the Scene) from
    the listing of its old Project to the listing of the new one, whether
    or not a Project with the new id is stored; the listings hold the same
    records otherwise. *)
Theorem update_of_projectId_moves_record_between_listings
    (clock : nat → Timestamp) (w : World) (x q : Z) :
  wf w →
  (∀ A d, assets (idb w) !! x = Some A → pa_projectId d = Some q →
     ∃ A' w', updateAsset clock x d w = (Ok A', w')
       ∧ a_projectId A' = q
       ∧ projects (idb w') = projects (idb w)
       ∧ ∀ pid, ∃ l l',
           listAssets pid None w = (Ok l, w)
           ∧ listAssets pid None w' = (Ok l', w')
           ∧ ∀ r, r ∈ l' ↔ (r = A' ∧ pid = q) ∨ (r ∈ l ∧ a_id r ≠ x))
  ∧ (∀ S0 d, scenes (idb w) !! x = Some S0 → ps_projectId d = Some q →
     ∃ S' w', updateScene clock x d w = (Ok S', w')
       ∧ s_projectId S' = q
       ∧ projects (idb w') = projects (idb w)
       ∧ ∀ pid, ∃ l l',
           listScenes pid None w = (Ok l, w)
           ∧ listScenes pid None w' = (Ok l', w')
           ∧ ∀ r, r ∈ l' ↔ (r = S' ∧ pid = q) ∨ (r ∈ l ∧ s_id r ≠ x)).
Proof.
  intros Hwf. pose proof (wf_ready _ Hwf) as Hi.
  assert (mgr (init w).2 = mgr w) as Hm by by rewrite (init_ready _ Hi).
  split.
  - intros A d HA Hq. eexists _, _. split; [by apply updateAsset_ok|].
    rewrite Hm. cbn. rewrite Hq. split_and!; try done.
    intros pid. eexists _, _.
    split; [by apply listAssets_ready|]. split; [by apply listAssets_ready|].
    cbn. set (A' := mergeAsset A d x _).
    assert (keyed_by a_id (<[x := A']> (assets (idb w)))) as Hk'.
    { intros k r Hkr.
      exact (proj1 (keyed_insert a_id _ x A A' (wf_asset_keys _ Hwf) HA eq_refl k r Hkr)). }
    intros r.
    rewrite (elem_of_index_getAll _ a_id pid _ r Hk').
    rewrite (elem_of_index_getAll _ a_id pid _ r (wf_asset_keys _ Hwf)).
    destruct (decide (a_id r = x)) as [Hr|Hr].
    + rewrite Hr, lookup_insert_eq. split.
      * intros [[= <-] Hp]. left. split; [done|]. subst A'. cbn in Hp.
        rewrite Hq in Hp. by cbn in Hp.
      * intros [[-> ->]|[_ ?]]; [|done]. split; [done|]. subst A'. cbn.
        by rewrite Hq.
    + rewrite lookup_insert_ne by done. split.
      * intros [? ?]. by right.
      * intros [[-> _]|[[? ?] _]]; [|done]. by subst A'.
  - intros S0 d HS Hq. eexists _, _. split; [by apply updateScene_ok|].
    rewrite Hm. cbn. rewrite Hq. split_and!; try done.
    intros pid. eexists _, _.
    split; [by apply listScenes_ready|]. split; [by apply listScenes_ready|].
    cbn. set (S' := mergeScene S0 d x _).
    assert (keyed_by s_id (<[x := S']> (scenes (idb w)))) as Hk'.
    { intros k r Hkr.
      exact (proj1 (keyed_insert s_id _ x S0 S' (wf_scene_keys _ Hwf) HS eq_refl k r Hkr)). }
    intros r.
    rewrite (elem_of_index_getAll _ s_id pid _ r Hk').
    rewrite (elem_of_index_getAll _ s_id pid _ r (wf_scene_keys _ Hwf)).
    destruct (decide (s_id r = x)) as [Hr|Hr].
    + rewrite Hr, lookup_insert_eq. split.
      * intros [[= <-] Hp]. left. split; [done|]. subst S'. cbn in Hp.
        rewrite Hq in Hp. by cbn in Hp.
      * intros [[-> ->]|[_ ?]]; [|done]. split; [done|]. subst S'. cbn.
        by rewrite Hq.
    + rewrite lookup_insert_ne by done. split.
      * intros [? ?]. by right.
      * intros [[-> _]|[[? ?] _]]; [|done]. by subst S'.
Qed.

(** The theorem at the demo world: "Hero.glb" is moved to Project 77, which
    is not stored. *)
Lemma update_of_projectId_moves_record_between_listings_witness :
  wf demoWorld
  ∧ ∃ A, assets (idb demoWorld) !! 1001 = Some A
    ∧ pa_projectId (moveAssetPatch 77) = Some 77
    ∧ ∃ A' w', updateAsset tickingClock 1001 (moveAssetPatch 77) demoWorld = (Ok A', w')
        ∧ getProject 77 w' = (Ok None, w')
        ∧ ∃ l l', listAssets 1000 None w' = (Ok l, w')
            ∧ listAssets 77 None w' = (Ok l', w')
            ∧ a_name <$> l = ["Models"]
            ∧ a_name <$> l' = ["Hero.glb"].
Proof.
  split; [exact wf_demoWorld|].
  assert (∃ A, assets (idb demoWorld) !! 1001 = Some A) as [A HA].
  { eexists. vm_compute. reflexivity. }
  exists A. split; [exact HA|]. split; [reflexivity|].
  destruct (update_of_projectId_moves_record_between_listings tickingClock demoWorld
              1001 77 wf_demoWorld) as [Hassets _].
  destruct (Hassets A (moveAssetPatch 77) HA eq_refl) as (A' & w' & Hu & _ & _ & Hl).
  exists A', w'. split; [exact Hu|].
  destruct (Hl 1000) as (l0 & l & _ & Hl1 & _).
  destruct (Hl 77) as (l0' & l' & _ & Hl2 & _).
  vm_compute in Hu. injection Hu as <- <-.
  split; [vm_compute; reflexivity|].
  exists l, l'. split; [exact Hl1|]. split; [exact Hl2|].
  vm_compute in Hl1. injection Hl1 as <-.
  vm_compute in Hl2. injection Hl2 as <-.
  split; reflexivity.
Defined.

(** ** Clearing the database *)

Lemma clearAll_ok w :
  clearAll w = (Ok tt, mkWorld (mkManager true 1000 1000 1000) emptyDB (ticks w)).
Proof.
  unfold clearAll, init. destruct w as [[i np na ns] db tk].
  by destruct i; exec.
Qed.


(** ** The invariant over whole sessions *)

(** X8.  Whatever requests are made of a manager that starts on a database
    just created (creates, reads, updates, deletes, listings, exports,
    imports, clears and page reloads, rejected ones included), as long as
    the counters stay in the exact range the world after them is
    well-formed, and so is the world a page reload would give: every stored
    id is below the counter of its kind, in memory and as saved, and every
    record sits under its own id. *)
Theorem requests_keep_stored_ids_below_counters (clock : nat → Timestamp)
    (rs : list Request) :
  (∀ n, counters_exact (foldl (λ w r, serve clock r w) readyWorld (take n rs))) →
  let w := foldl (λ w r, serve clock r w) readyWorld rs in
  wf w ∧ wf (reload w).
Proof.
  intros _.
  assert (∀ w, consistent w → consistent (foldl (λ w r, serve clock r w) w rs)) as H.
  { induction rs as [|r rs IH]; intros w Hc; [done|]. cbn.
    by apply IH, consistent_serve. }
  apply (H readyWorld consistent_readyWorld).
Qed.

(** The theorem at a session that imports the demo snapshot, deletes Asset
    1000, reloads the page and creates an Asset: the new Asset is 1002. *)
Lemma requests_keep_stored_ids_below_counters_witness :
  let rs := [ReqImportProject demoData; ReqDeleteAsset 1000; ReqReload;
             ReqCreateAsset emptyPartialAsset] in
  let w := foldl (λ w r, serve tickingClock r w) readyWorld rs in
  (∀ n, counters_exact (foldl (λ w r, serve tickingClock r w) readyWorld (take n rs)))
  ∧ wf w
  ∧ wf (reload w)
  ∧ nextAssetId (mgr w) = 1003
  ∧ (a_name <$> assets (idb w) !! 1002) = Some "Untitled Asset".
Proof.
  intros rs w.
  assert (∀ n, counters_exact
                 (foldl (λ w r, serve tickingClock r w) readyWorld (take n rs))) as Hexact.
  { intros n. subst rs.
    destruct n as [|[|[|[|n]]]]; cbn [take]; try (destruct n; cbn [take]);
      (split_and!; split; by vm_compute). }
  split; [exact Hexact|].
  destruct (requests_keep_stored_ids_below_counters tickingClock rs Hexact) as [H1 H2].
  split; [exact H1|]. split; [exact H2|].
  split; vm_compute; reflexivity.
Defined.

(** ** Import: what the loops leave alone *)

Section ImportFacts.
Variable clock : nat → Timestamp.

(** A run of creates writes no key below the counter it starts from. *)
Lemma forEach_createAsset_below ds : ∀ w rs w',
  wf w → forEach (createAsset clock) ds w = (Ok rs, w') →
  ∀ k, k < nextAssetId (mgr w) → assets (idb w') !! k = assets (idb w) !! k.
Proof.
  induction ds as [|d ds IH]; intros w rs w' Hwf Hrun k Hk.
  - cbn in Hrun. by injection Hrun as <- <-.
  - cbn [forEach] in Hrun.
    rewrite (bind_ok _ _ _ _ _ (createAsset_ok clock d w Hwf)) in Hrun.
    set (a := makeAsset _ _ _ d) in *.
    destruct (forEach (createAsset clock) ds (afterCreateAsset a w))
      as [[ys|e] w2] eqn:Hrest.
    + rewrite (bind_ok _ _ _ _ _ Hrest) in Hrun. injection Hrun as <- <-.
      rewrite (IH _ _ _ (wf_afterCreateAsset a w Hwf eq_refl) Hrest k).
      * cbn. rewrite lookup_insert_ne; [done|]. cbn. lia.
      * cbn. lia.
    + unfold mbind, M_bind in Hrun. by rewrite Hrest in Hrun.
Qed.

Lemma forEach_createScene_below ds : ∀ w rs w',
  wf w → forEach (createScene clock) ds w = (Ok rs, w') →
  ∀ k, k < nextSceneId (mgr w) → scenes (idb w') !! k = scenes (idb w) !! k.
Proof.
  induction ds as [|d ds IH]; intros w rs w' Hwf Hrun k Hk.
  - cbn in Hrun. by injection Hrun as <- <-.
  - cbn [forEach] in Hrun.
    rewrite (bind_ok _ _ _ _ _ (createScene_ok clock d w Hwf)) in Hrun.
    set (s := makeScene _ _ _ d) in *.
    destruct (forEach (createScene clock) ds (afterCreateScene s w))
      as [[ys|e] w2] eqn:Hrest.
    + rewrite (bind_ok _ _ _ _ _ Hrest) in Hrun. injection Hrun as <- <-.
      rewrite (IH _ _ _ (wf_afterCreateScene s w Hwf eq_refl) Hrest k).
      * cbn. rewrite lookup_insert_ne; [done|]. cbn. lia.
      * cbn. lia.
    + unfold mbind, M_bind in Hrun. by rewrite Hrest in Hrun.
Qed.

(** [importProject] on a snapshot that carries a project, with the two
    loops it runs. *)
Lemma importProject_run d pd w :
  wf w → d_project d = Some pd →
  let P := makeProject (nextProjectId (mgr w)) (clock (ticks w))
             (clock (S (ticks w))) pd in
  let das := (λ a, withAssetProjectId a (p_id P)) <$> default [] (d_assets d) in
  let dss := (λ s, withSceneProjectId s (p_id P)) <$> default [] (d_scenes d) in
  ∃ ras w1 rss w2,
    importProject clock d w = (Ok P, w2)
    ∧ forEach (createAsset clock) das (afterCreateProject P w) = (Ok ras, w1)
    ∧ forEach (createScene clock) dss w1 = (Ok rss, w2)
    ∧ AssetsCreated clock das (afterCreateProject P w) ras w1
    ∧ ScenesCreated clock dss w1 rss w2.
Proof.
  intros Hwf Hpd P das dss.
  assert (wf (afterCreateProject P w)) as Hwf0 by by apply wf_afterCreateProject.
  destruct (forEach_createAsset clock das _ Hwf0) as (ras & w1 & Hassets & Hac).
  pose proof (ac_wf _ _ _ _ _ Hac) as Hwf1.
  destruct (forEach_createScene clock dss _ Hwf1) as (rss & w2 & Hscenes & Hsc).
  exists ras, w1, rss, w2. split; [|done].
  unfold importProject. rewrite Hpd.
  rewrite (bind_ok _ _ _ _ _ (init_ready w (wf_ready _ Hwf))).
  rewrite (bind_ok _ _ _ _ _ (createProject_ok clock pd w Hwf)). fold P.
  assert ((match d_assets d with
           | Some assetList =>
               forEach (λ assetData,
                 createAsset clock (withAssetProjectId assetData (p_id P))) assetList;;
               mret ()
           | None => mret ()
           end) (afterCreateProject P w) = (Ok (), w1)) as Hloop1.
  { subst das. destruct (d_assets d) as [l|]; cbn [default] in Hassets.
    - rewrite (forEach_fmap (createAsset clock)).
      by rewrite (bind_ok _ _ _ _ _ Hassets).
    - cbn in Hassets. by injection Hassets as <- <-. }
  rewrite (bind_ok _ _ _ _ _ Hloop1).
  assert ((match d_scenes d with
           | Some sceneList =>
               forEach (λ sceneData,
                 createScene clock (withSceneProjectId sceneData (p_id P))) sceneList;;
               mret ()
           | None => mret ()
           end) w1 = (Ok (), w2)) as Hloop2.
  { subst dss. destruct (d_scenes d) as [l|]; cbn [default] in Hscenes.
    - rewrite (forEach_fmap (createScene clock)).
      by rewrite (bind_ok _ _ _ _ _ Hscenes).
    - cbn in Hscenes. by injection Hscenes as <- <-. }
  by rewrite (bind_ok _ _ _ _ _ Hloop2).
Qed.

(** The world an import leaves: well-formed, the counters advanced by what
    was created and saved, the project store one larger. *)
Lemma importProject_world d pd w :
  wf w → d_project d = Some pd →
  let P := makeProject (nextProjectId (mgr w)) (clock (ticks w))
             (clock (S (ticks w))) pd in
  ∃ w2,
    importProject clock d w = (Ok P, w2)
    ∧ wf w2
    ∧ durable w2
    ∧ mgr w2 = mkManager true (nextProjectId (mgr w) + 1)
                 (nextAssetId (mgr w) + Z.of_nat (length (default [] (d_assets d))))
                 (nextSceneId (mgr w) + Z.of_nat (length (default [] (d_scenes d))))
    ∧ projects (idb w2) = <[p_id P := P]> (projects (idb w))
    ∧ ticks w2 = (ticks w + 2 + 2 * length (default [] (d_assets d))
                  + 2 * length (default [] (d_scenes d)))%nat.
Proof.
  intros Hwf Hpd P.
  destruct (importProject_run d pd w Hwf Hpd)
    as (ras & w1 & rss & w2 & Hrun & _ & _ & Hac & Hsc).
  exists w2. split; [exact Hrun|].
  split; [apply (sc_wf _ _ _ _ _ Hsc)|].
  split.
  { apply (sc_durable _ _ _ _ _ Hsc). right.
    apply (ac_durable _ _ _ _ _ Hac). right.
    apply durable_afterCreateProject, Hwf. }
  split.
  { rewrite (sc_mgr _ _ _ _ _ Hsc), (ac_mgr _ _ _ _ _ Hac). cbn.
    rewrite !length_fmap. by rewrite (wf_ready _ Hwf). }
  split.
  { by rewrite (sc_projects _ _ _ _ _ Hsc), (ac_projects _ _ _ _ _ Hac). }
  rewrite (sc_ticks _ _ _ _ _ Hsc), (ac_ticks _ _ _ _ _ Hac). cbn.
  rewrite !length_fmap. lia.
Qed.

(** [importProject] on data without a [project]: [createProject] takes an
    id and then fails to read [data.name]. *)
Lemma importProject_undefined d w :
  initPromise (mgr w) = true → d_project d = None →
  ∃ msg,
    importProject clock d w
    = (Err (TypeError msg), mkWorld (incrProjectId (mgr w)) (idb w) (ticks w)).
Proof.
  intros Hi Hnone. eexists. unfold importProject. rewrite Hnone.
  rewrite (bind_ok _ _ _ _ _ (init_ready w Hi)).
  unfold createProject_undefined, mbind at 1, M_bind.
  rewrite (bind_ok _ _ _ _ _ (init_ready w Hi)). by exec.
Qed.

Lemma wf_incrProjectId w :
  wf w → wf (mkWorld (incrProjectId (mgr w)) (idb w) (ticks w)).
Proof.
  intros [? Hp ? ? ? ? ?]. split; cbn; try done.
  intros k r Hk%Hp. lia.
Qed.

End ImportFacts.





(** ** Backup files *)

Lemma forEach_app_err {A B} (f : A → M B) l1 x l2 : ∀ w ys w1 e w2,
  forEach f l1 w = (Ok ys, w1) → f x w1 = (Err e, w2) →
  forEach f (l1 ++ x :: l2) w = (Err e, w2).
Proof.
  induction l1 as [|a l1 IH]; intros w ys w1 e w2 Hrun Hx.
  - cbn in Hrun. injection Hrun as <- <-. cbn. unfold mbind, M_bind. by rewrite Hx.
  - cbn [forEach app] in *.
    destruct (f a w) as [[y|e'] wa] eqn:Ha.
    + rewrite (bind_ok _ _ _ _ _ Ha) in Hrun. rewrite (bind_ok _ _ _ _ _ Ha).
      destruct (forEach f l1 wa) as [[ys'|e'] wb] eqn:Hb.
      * rewrite (bind_ok _ _ _ _ _ Hb) in Hrun. injection Hrun as <- <-.
        unfold mbind, M_bind. by rewrite (IH _ _ _ _ _ Hb Hx).
      * unfold mbind, M_bind in Hrun. by rewrite Hb in Hrun.
    + unfold mbind, M_bind in Hrun. by rewrite Ha in Hrun.
Qed.

Section BackupFacts.
Variable clock : nat → Timestamp.

(** The loop of [importAllProjects] over entries that all carry a project. *)
Lemma forEach_importProject ds : ∀ w,
  wf w → Forall (λ d, is_Some (d_project d)) ds →
  ∃ w',
    forEach (λ projectData,
      project ← importProject clock projectData; mret (p_id project)) ds w
    = (Ok ((λ i : nat, nextProjectId (mgr w) + Z.of_nat i) <$> seq 0 (length ds)), w')
    ∧ wf w'
    ∧ nextProjectId (mgr w') = nextProjectId (mgr w) + Z.of_nat (length ds)
    ∧ (∀ k p, projects (idb w) !! k = Some p → projects (idb w') !! k = Some p)
    ∧ (∀ (i : nat) d, ds !! i = Some d →
         ∃ pd t1 t2, d_project d = Some pd
           ∧ projects (idb w') !! (nextProjectId (mgr w) + Z.of_nat i)
             = Some (makeProject (nextProjectId (mgr w) + Z.of_nat i) t1 t2 pd))
    ∧ size (projects (idb w')) = (size (projects (idb w)) + length ds)%nat.
Proof.
  induction ds as [|d ds IH]; intros w Hwf Hall.
  - exists w. cbn. split_and!; try done; lia.
  - apply Forall_cons in Hall as [[pd Hpd] Hall].
    destruct (importProject_world clock d pd w Hwf Hpd)
      as (w2 & Hrun & Hwf2 & _ & Hmgr & Hprojects & _).
    set (P := makeProject _ _ _ pd) in *.
    destruct (IH w2 Hwf2 Hall) as (w' & Hrest & Hwf' & Hnext & Hkept & Hstored & Hsize).
    assert (nextProjectId (mgr w2) = nextProjectId (mgr w) + 1) as Hn2
      by by rewrite Hmgr.
    assert (projects (idb w) !! nextProjectId (mgr w) = None) as Hfresh.
    { destruct (projects (idb w) !! nextProjectId (mgr w)) eqn:E; [|done].
      apply (wf_projects _ Hwf) in E. lia. }
    exists w'. split_and!.
    + cbn [forEach].
      assert ((project ← importProject clock d; mret (p_id project)) w
              = (Ok (nextProjectId (mgr w)), w2)) as Hone.
      { by rewrite (bind_ok _ _ _ _ _ Hrun). }
      rewrite (bind_ok _ _ _ _ _ Hone), (bind_ok _ _ _ _ _ Hrest).
      unfold mret, M_ret. do 2 f_equal. cbn [length seq fmap list_fmap].
      f_equal; [lia|]. rewrite <- fmap_S_seq, <- list_fmap_compose.
      apply list_fmap_ext. intros _ i _. cbn. rewrite Hn2. lia.
    + done.
    + rewrite Hnext, Hn2. cbn [length]. lia.
    + intros k p Hk. apply Hkept. rewrite Hprojects.
      rewrite lookup_insert_ne; [done|]. cbn. congruence.
    + intros [|i] d' Hd'; cbn in Hd'.
      * injection Hd' as <-. exists pd, (clock (ticks w)), (clock (S (ticks w))).
        split; [done|]. rewrite Z.add_0_r. apply Hkept. rewrite Hprojects.
        apply lookup_insert_eq.
      * destruct (Hstored i d' Hd') as (pd' & t1 & t2 & Hpd' & Hl).
        exists pd', t1, t2. split; [done|].
        by replace (nextProjectId (mgr w) + Z.of_nat (S i))
          with (nextProjectId (mgr w2) + Z.of_nat i) by lia.
    + rewrite Hsize, Hprojects. cbn [length].
      rewrite map_size_insert_None by done. lia.
Qed.

(** The loop of [exportAllProjects]: it reads, and advances the clock. *)
Lemma forEach_exportProject l : ∀ w,
  initPromise (mgr w) = true →
  ∃ snaps,
    forEach (λ project, exportProject clock (p_id project)) l w
    = (Ok snaps, mkWorld (mgr w) (idb w) (ticks w + length l))
    ∧ length snaps = length l
    ∧ ∀ (i : nat) p, l !! i = Some p →
        snaps !! i
        = Some (mkSnapshot (projects (idb w) !! p_id p)
                  (index_getAll a_projectId (p_id p) (assets (idb w)))
                  (index_getAll s_projectId (p_id p) (scenes (idb w)))
                  (clock (ticks w + i))).
Proof.
  induction l as [|p l IH]; intros w Hi.
  - exists []. cbn. rewrite Nat.add_0_r. by destruct w.
  - destruct (IH (mkWorld (mgr w) (idb w) (S (ticks w))) Hi)
      as (snaps & Hrest & Hlen & Hsnaps).
    eexists (_ :: snaps). split_and!.
    + cbn [forEach].
      rewrite (bind_ok _ _ _ _ _ (exportProject_ok clock (p_id p) w Hi)).
      rewrite (bind_ok _ _ _ _ _ Hrest). cbn.
      unfold mret, M_ret. do 2 f_equal. lia.
    + cbn. by rewrite Hlen.
    + intros [|i] q Hq; cbn in Hq.
      * injection Hq as <-. cbn. by rewrite Nat.add_0_r.
      * simpl. rewrite (Hsnaps i q Hq). simpl. do 3 f_equal. lia.
Qed.

End BackupFacts.







(** ** The sample seeder *)

(** What a create adds to the listings. *)
Lemma listing_afterCreateProject p w :
  wf w → p_id p = nextProjectId (mgr w) →
  index_getAll (λ _ : Project, 0) 0 (projects (idb (afterCreateProject p w)))
  = index_getAll (λ _ : Project, 0) 0 (projects (idb w)) ++ [p].
Proof.
  intros Hwf Hid. cbn. rewrite Hid.
  rewrite (index_getAll_insert_max _ 0 _ _ p (wf_projects _ Hwf)).
  by rewrite decide_True.
Qed.

Lemma listing_afterCreateAsset a w pid :
  wf w → a_id a = nextAssetId (mgr w) →
  index_getAll a_projectId pid (assets (idb (afterCreateAsset a w)))
  = index_getAll a_projectId pid (assets (idb w))
    ++ (if decide (a_projectId a = pid) then [a] else []).
Proof.
  intros Hwf Hid. cbn. rewrite Hid.
  apply (index_getAll_insert_max _ pid _ _ a (wf_assets _ Hwf)).
Qed.

Lemma listing_afterCreateScene s w pid :
  wf w → s_id s = nextSceneId (mgr w) →
  index_getAll s_projectId pid (scenes (idb (afterCreateScene s w)))
  = index_getAll s_projectId pid (scenes (idb w))
    ++ (if decide (s_projectId s = pid) then [s] else []).
Proof.
  intros Hwf Hid. cbn. rewrite Hid.
  apply (index_getAll_insert_max _ pid _ _ s (wf_scenes _ Hwf)).
Qed.

Lemma assets_afterCreateScene s w :
  assets (idb (afterCreateScene s w)) = assets (idb w).
Proof. reflexivity. Qed.

(** One create of a sequence: run it, and keep the world well-formed. *)
Ltac create_step :=
  match goal with
  | Hwf : wf ?w |- context [(createProject ?c ?d ≫= _) ?w] =>
      rewrite (bind_ok _ _ _ _ _ (createProject_ok c d w Hwf));
      let H := fresh "Hwf" in
      pose proof (wf_afterCreateProject
                    (makeProject (nextProjectId (mgr w)) (c (ticks w))
                       (c (S (ticks w))) d) w Hwf eq_refl) as H
  | Hwf : wf ?w |- context [(createAsset ?c ?d ≫= _) ?w] =>
      rewrite (bind_ok _ _ _ _ _ (createAsset_ok c d w Hwf));
      let H := fresh "Hwf" in
      pose proof (wf_afterCreateAsset
                    (makeAsset (nextAssetId (mgr w)) (c (ticks w))
                       (c (S (ticks w))) d) w Hwf eq_refl) as H
  | Hwf : wf ?w |- context [(createScene ?c ?d ≫= _) ?w] =>
      rewrite (bind_ok _ _ _ _ _ (createScene_ok c d w Hwf));
      let H := fresh "Hwf" in
      pose proof (wf_afterCreateScene
                    (makeScene (nextSceneId (mgr w)) (c (ticks w))
                       (c (S (ticks w))) d) w Hwf eq_refl) as H
  end.

Section SeederFacts.
Variable clock : nat → Timestamp.
Variables grey nearClip : JsVal.

Lemma createBlankProject_ok name w :
  wf w →
  let p := makeProject (nextProjectId (mgr w)) (clock (ticks w))
             (clock (S (ticks w))) (blankProjectData (default "Blank Project" name)) in
  let s := makeScene (nextSceneId (mgr w)) (clock (S (S (ticks w))))
             (clock (S (S (S (ticks w))))) (mainSceneData (p_id p)) in
  createBlankProject clock name w
  = (Ok (p_id p), afterCreateScene s (afterCreateProject p w))
  ∧ wf (afterCreateScene s (afterCreateProject p w)).
Proof.
  intros Hwf p s. unfold createBlankProject.
  do 2 create_step. split; [reflexivity|assumption].
Qed.

Lemma createSampleProject_ok w :
  wf w →
  let n := nextProjectId (mgr w) in
  let k := nextAssetId (mgr w) in
  let p := makeProject n (clock (ticks w)) (clock (S (ticks w))) sampleProjectData in
  let a1 := makeAsset k (clock (S (S (ticks w)))) (clock (S (S (S (ticks w))))) (folderData n "Models") in
  let a2 := makeAsset (k + 1) (clock (S (S (S (S (ticks w)))))) (clock (S (S (S (S (S (ticks w))))))) (folderData n "Textures") in
  let a3 := makeAsset (k + 1 + 1) (clock (S (S (S (S (S (S (ticks w)))))))) (clock (S (S (S (S (S (S (S (ticks w))))))))) (folderData n "Scripts") in
  let a4 := makeAsset (k + 1 + 1 + 1) (clock (S (S (S (S (S (S (S (S (ticks w))))))))))
              (clock (S (S (S (S (S (S (S (S (S (ticks w)))))))))))
              (scriptAssetData n "PlayerController.js" (k + 1 + 1) "playerController") in
  let a5 := makeAsset (k + 1 + 1 + 1 + 1) (clock (S (S (S (S (S (S (S (S (S (S (ticks w))))))))))))
              (clock (S (S (S (S (S (S (S (S (S (S (S (ticks w)))))))))))))
              (scriptAssetData n "CameraController.js" (k + 1 + 1) "cameraController") in
  let s := makeScene (nextSceneId (mgr w)) (clock (S (S (S (S (S (S (S (S (S (S (S (S (ticks w))))))))))))))
             (clock (S (S (S (S (S (S (S (S (S (S (S (S (S (ticks w)))))))))))))))
             (gameSceneArg n grey nearClip) in
  let w' := afterCreateScene s
              (afterCreateAsset a5
                 (afterCreateAsset a4
                    (afterCreateAsset a3
                       (afterCreateAsset a2
                          (afterCreateAsset a1 (afterCreateProject p w)))))) in
  createSampleProject clock grey nearClip w = (Ok n, w') ∧ wf w'.
Proof.
  intros Hwf n k p a1 a2 a3 a4 a5 s w'. unfold createSampleProject.
  do 7 create_step. split; [reflexivity|assumption].
Qed.

End SeederFacts.

Lemma length_listing_projects (t : gmap Z Project) :
  length (index_getAll (λ _ : Project, 0) 0 t) = size t.
Proof.
  unfold index_getAll, index_only.
  rewrite length_fmap, merge_sort_Permutation, filter_all by done.
  apply length_map_to_list.
Qed.

Lemma hasProjects_ok w :
  initPromise (mgr w) = true →
  hasProjects w = (Ok (bool_decide (0 < size (projects (idb w)))%nat), w).
Proof.
  intros Hi. unfold hasProjects.
  rewrite (bind_ok _ _ _ _ _ (listProjects_ready w Hi)).
  by rewrite length_listing_projects.
Qed.







(** ** Start-up *)

Lemma existsb_id_is (v : JsVal) (l : list Project) :
  existsb (id_is v) l = true ↔ ∃ p, p ∈ l ∧ v = JNum (p_id p).
Proof.
  rewrite existsb_exists. split.
  - intros (p & Hp%list_elem_of_In & Hv). exists p. split; [done|].
    destruct v; try done. cbn in Hv. apply Z.eqb_eq in Hv. by subst.
  - intros (p & Hp%list_elem_of_In & ->). exists p. split; [done|].
    cbn. apply Z.eqb_refl.
Qed.



(** ** Shim functions *)

Lemma uploadUrls_loop_spec rounds : ∀ parts i urls,
  (Z.to_nat (parts - i) ≤ rounds)%nat →
  uploadUrls_loop rounds parts i urls
  = Some (urls ++ ((λ j, mkUploadUrl ("local://upload/" +:+ pretty j) (j + 1))
                     <$> seqZ i (parts - i))).
Proof.
  induction rounds as [|rounds IH]; intros parts i urls Hrounds.
  - cbn. rewrite bool_decide_eq_false_2 by lia.
    rewrite seqZ_nil by lia. by rewrite app_nil_r.
  - cbn [uploadUrls_loop]. case_bool_decide as Hlt.
    + rewrite IH by lia. rewrite (seqZ_cons i) by lia.
      rewrite <- app_assoc. cbn. do 4 f_equal.
      f_equal; lia.
    + rewrite seqZ_nil by lia. by rewrite app_nil_r.
Qed.

(** X18.  Given rounds enough for the loop, [uploadUrls] resolves with one
    entry per part and no more (none for a part count of zero or less):
    entry [i], counted from zero, has the url "local://upload/i" and the
    part number [i + 1], and no url occurs twice. *)
Theorem uploadUrls_numbers_parts_from_one (parts : Z) (rounds : nat) :
  (Z.to_nat parts ≤ rounds)%nat →
  ∃ urls,
    uploadUrls rounds parts = Some urls
    ∧ length urls = Z.to_nat parts
    ∧ (∀ i, 0 ≤ i < parts →
         urls !! Z.to_nat i
         = Some (mkUploadUrl ("local://upload/" +:+ pretty i) (i + 1)))
    ∧ NoDup (u_url <$> urls).
Proof.
  intros Hrounds. eexists. split.
  { unfold uploadUrls. apply uploadUrls_loop_spec.
    by rewrite Z.sub_0_r. }
  rewrite Z.sub_0_r. cbn [app]. split_and!.
  - by rewrite length_fmap, length_seqZ.
  - intros i Hi. rewrite list_lookup_fmap, lookup_seqZ_lt by lia. cbn.
    by rewrite Z2Nat.id by lia.
  - rewrite <- list_fmap_compose. apply NoDup_fmap_2_strong; [|apply NoDup_seqZ].
    intros a b _ _ Heq. cbn in Heq.
    by apply (inj (String.app "local://upload/")), (inj pretty) in Heq.
Qed.

(** The theorem for an upload in three parts. *)
Lemma uploadUrls_numbers_parts_from_one_witness :
  (Z.to_nat 3 ≤ 3)%nat
  ∧ uploadUrls 3 3
    = Some [mkUploadUrl "local://upload/0" 1; mkUploadUrl "local://upload/1" 2;
            mkUploadUrl "local://upload/2" 3].
Proof.
  split; [by vm_compute|].
  destruct (uploadUrls_numbers_parts_from_one 3 3 ltac:(by vm_compute))
    as (urls & Hrun & _).
  rewrite Hrun. vm_compute in Hrun. by injection Hrun as <-.
Defined.

(** X19.  [projectTransfer] of a stored Project resolves with the Project
    as stored afterwards: its [owner] is the [owner_id] given, or
    [undefined] when the data carry none, [modified] is the time of the
    call, and every other property is as before. *)
Theorem projectTransfer_overwrites_owner_only (clock : nat → Timestamp) (w : World)
    (x : Z) (P : Project) (owner_id : option JsVal) :
  wf w → projects (idb w) !! x = Some P →
  ∃ P' w',
    projectTransfer clock x owner_id w = (Ok P', w')
    ∧ getProject x w' = (Ok (Some P'), w')
    ∧ P' = mkProject (p_id P) (p_name P) (p_description P)
             (match owner_id with Some v => v | None => JUndefined end)
             (p_created P) (clock (ticks w)) (p_private P)
             (p_private_source_assets P) (p_settings P) (p_fork_from P)
             (p_image_url P) (p_website P) (p_tags P) (p_primary_app P).
Proof.
  intros Hwf HP. eexists _, _. split; [by apply updateProject_ok|].
  split.
  - rewrite getProject_ready by apply init_initPromise.
    cbn. by rewrite lookup_insert_eq.
  - unfold mergeProject. cbn. rewrite (wf_project_keys _ Hwf _ _ HP).
    by destruct owner_id.
Qed.

(** The theorem at the one-project world, for a transfer without an
    [owner_id]: the owner becomes [undefined]. *)
Lemma projectTransfer_overwrites_owner_only_witness :
  ∃ P, wf oneProjectWorld
    ∧ projects (idb oneProjectWorld) !! 1000 = Some P
    ∧ p_owner P = JObj [("id", JNum 1); ("username", JStr "local")]
    ∧ ∃ P' w', projectTransfer tickingClock 1000 None oneProjectWorld = (Ok P', w')
        ∧ p_owner P' = JUndefined
        ∧ p_name P' = p_name P.
Proof.
  assert (wf oneProjectWorld) as Hwf.
  { apply (bool_decide_unpack _). by vm_compute. }
  assert (∃ P, projects (idb oneProjectWorld) !! 1000 = Some P) as [P HP].
  { eexists. vm_compute. reflexivity. }
  exists P. split; [exact Hwf|]. split; [exact HP|].
  destruct (projectTransfer_overwrites_owner_only tickingClock oneProjectWorld 1000 P
              None Hwf HP) as (P' & w' & Hrun & _ & HP').
  split; [vm_compute in HP; by injection HP as <-|].
  exists P', w'. split; [exact Hrun|]. by rewrite HP'.
Defined.

(** X20.  The promise of [projectImage] resolves with the url once the
    Project is updated.  For a Project that is not stored it never
    settles: the rejection of [updateProject] is dropped, the database is
    left as it was, and an adapter whose promise does not settle emits no
    event and calls no handler, however long it is run. *)
Theorem projectImage_never_settles_for_a_missing_project
    (clock : nat → Timestamp) (w : World) (x : Z) (imageUrl : string) :
  (∀ P, projects (idb w) !! x = Some P →
     ∃ P' w', projectImage clock x imageUrl w = (Some imageUrl, w')
       ∧ projects (idb w') !! x = Some P'
       ∧ p_image_url P' = Some imageUrl
       ∧ p_name P' = p_name P)
  ∧ (projects (idb w) !! x = None →
     (projectImage clock x imageUrl w).1 = None
     ∧ idb (projectImage clock x imageUrl w).2 = idb w
     ∧ ∀ t0 schedule,
         Forall (λ a, LocalAjax.is_settle a = false) schedule →
         LocalAjax.emitted (LocalAjax.run schedule (LocalAjax.construct t0)) = []
         ∧ LocalAjax.calls (LocalAjax.run schedule (LocalAjax.construct t0)) = []).
Proof.
  split.
  - intros P HP. unfold projectImage.
    rewrite (updateProject_ok clock x P _ w HP). eexists _, _.
    split; [reflexivity|]. cbn. by rewrite lookup_insert_eq.
  - intros Hnone. unfold projectImage, updateProject.
    pose proof (init_is_ok w) as Hok. pose proof (init_idb w) as Hidb.
    pose proof (init_initPromise w) as Hi.
    destruct (init w) as [r w0] eqn:Hinit. cbn in Hok, Hidb, Hi. subst r.
    rewrite (bind_ok _ _ _ _ _ Hinit).
    rewrite (bind_ok _ _ _ _ _ (getProject_ready x w0 Hi)).
    rewrite Hidb, Hnone. cbn. split_and!; [done|done|].
    intros t0 schedule Hpending.
    by destruct (pending_run schedule (LocalAjax.construct t0) eq_refl eq_refl Hpending)
      as (_ & _ & -> & -> & _).
Qed.

(** The theorem at a database just created, where Project 42 is not
    stored, for an adapter run for some seconds. *)
Lemma projectImage_never_settles_for_a_missing_project_witness :
  projects (idb readyWorld) !! 42 = None
  ∧ (projectImage tickingClock 42 "data:image/png;base64,AAAA" readyWorld).1 = None
  ∧ LocalAjax.emitted
      (LocalAjax.run
         [LocalAjax.CallOn "load" onLoad; LocalAjax.CallOn "error" onError;
          LocalAjax.TimePasses 3600; LocalAjax.RunDueTimers]
         (LocalAjax.construct 0)) = [].
Proof.
  split; [reflexivity|].
  destruct (projectImage_never_settles_for_a_missing_project tickingClock readyWorld 42
              "data:image/png;base64,AAAA") as [_ Hmissing].
  destruct (Hmissing eq_refl) as (Hpending & _ & Hadapter).
  split; [exact Hpending|].
  apply Hadapter. by repeat constructor.
Defined.

(** ** Identifiers over a session *)

Lemma counters_le_refl m : counters_le m m.
Proof. unfold counters_le. lia. Qed.

Lemma counters_le_trans m1 m2 m3 :
  counters_le m1 m2 → counters_le m2 m3 → counters_le m1 m3.
Proof. unfold counters_le. lia. Qed.

Lemma savedCounters_durable w : durable w → savedCounters w = mgr w.
Proof. done. Qed.

Lemma savedCounters_metadata w w' :
  metadata (idb w') = metadata (idb w) → savedCounters w' = savedCounters w.
Proof. intros Hmd. unfold savedCounters. rewrite !reload_eq. cbn. by rewrite Hmd. Qed.

Section Session.
Variable clock : nat → Timestamp.

(** What a request other than [clearAll] does to the counters: it saves
    them, or leaves the saved ones alone; the ones in memory do not go
    down, except that a reload sets them to the saved ones. *)
Lemma serve_counters r w :
  wf w → is_clearAll r = false →
  (durable (serve clock r w) ∧ counters_le (mgr w) (mgr (serve clock r w)))
  ∨ (metadata (idb (serve clock r w)) = metadata (idb w)
     ∧ counters_le (mgr w) (mgr (serve clock r w)))
  ∨ (metadata (idb (serve clock r w)) = metadata (idb w)
     ∧ mgr (serve clock r w) = savedCounters w).
Proof.
  intros Hwf Hr. pose proof (wf_ready _ Hwf) as Hi.
  assert (∀ v, idb v = idb w → mgr v = mgr w →
            metadata (idb v) = metadata (idb w) ∧ counters_le (mgr w) (mgr v)) as Hsame.
  { intros v -> ->. split; [done|apply counters_le_refl]. }
  destruct r as [d|x|x d|x| |d|x|x d|x|x b|d|x|x d|x|x b|x|d| |]; cbn [serve];
    try discriminate Hr.
  - left. rewrite (createProject_ok clock d w Hwf). cbn [snd].
    split; [by apply durable_afterCreateProject|]. unfold counters_le. cbn. lia.
  - right. left. rewrite (getProject_ready x w Hi). by apply Hsame.
  - right. left. destruct (projects (idb w) !! x) as [P|] eqn:Hx.
    + rewrite (updateProject_ok clock x P d w Hx). cbn [snd].
      rewrite (init_ready w Hi). cbn. split; [done|apply counters_le_refl].
    + unfold updateProject.
      rewrite (bind_ok _ _ _ _ _ (init_ready w Hi)).
      rewrite (bind_ok _ _ _ _ _ (getProject_ready x w Hi)). rewrite Hx.
      by apply Hsame.
  - right. left. rewrite deleteProject_ok. cbn [snd]. rewrite (init_ready w Hi).
    cbn. split; [done|apply counters_le_refl].
  - right. left. rewrite (listProjects_ready w Hi). by apply Hsame.
  - left. rewrite (createAsset_ok clock d w Hwf). cbn [snd].
    split; [by apply durable_afterCreateAsset|]. unfold counters_le. cbn. lia.
  - right. left. rewrite (getAsset_ready x w Hi). by apply Hsame.
  - right. left. destruct (assets (idb w) !! x) as [A|] eqn:Hx.
    + rewrite (updateAsset_ok clock x A d w Hx). cbn [snd].
      rewrite (init_ready w Hi). cbn. split; [done|apply counters_le_refl].
    + unfold updateAsset.
      rewrite (bind_ok _ _ _ _ _ (init_ready w Hi)).
      rewrite (bind_ok _ _ _ _ _ (getAsset_ready x w Hi)). rewrite Hx.
      by apply Hsame.
  - right. left. rewrite deleteAsset_ok. cbn [snd]. rewrite (init_ready w Hi).
    cbn. split; [done|apply counters_le_refl].
  - right. left. rewrite (listAssets_ready x b w Hi). by apply Hsame.
  - left. rewrite (createScene_ok clock d w Hwf). cbn [snd].
    split; [by apply durable_afterCreateScene|]. unfold counters_le. cbn. lia.
  - right. left. rewrite (getScene_ready x w Hi). by apply Hsame.
  - right. left. destruct (scenes (idb w) !! x) as [S0|] eqn:Hx.
    + rewrite (updateScene_ok clock x S0 d w Hx). cbn [snd].
      rewrite (init_ready w Hi). cbn. split; [done|apply counters_le_refl].
    + unfold updateScene.
      rewrite (bind_ok _ _ _ _ _ (init_ready w Hi)).
      rewrite (bind_ok _ _ _ _ _ (getScene_ready x w Hi)). rewrite Hx.
      by apply Hsame.
  - right. left. rewrite deleteScene_ok. cbn [snd]. rewrite (init_ready w Hi).
    cbn. split; [done|apply counters_le_refl].
  - right. left. rewrite (listScenes_ready x b w Hi). by apply Hsame.
  - right. left. rewrite (exportProject_ok clock x w Hi). cbn.
    split; [done|apply counters_le_refl].
  - destruct (d_project d) as [pd|] eqn:Hpd.
    + left. destruct (importProject_world clock d pd w Hwf Hpd)
        as (w2 & Hrun & _ & Hd & Hmgr & _).
      rewrite Hrun. cbn [snd]. split; [done|]. rewrite Hmgr.
      unfold counters_le. cbn. lia.
    + right. left. destruct (importProject_undefined clock d w Hi Hpd) as [msg Hrun].
      rewrite Hrun. cbn. split; [done|]. unfold counters_le. cbn. lia.
  - right. right. by rewrite reload_eq.
Qed.

(** Over a request other than [clearAll] the saved counters do not go
    down, and they stay at or below the counters in memory. *)
Lemma serve_savedCounters r w :
  consistent w → counters_le (savedCounters w) (mgr w) → is_clearAll r = false →
  counters_le (savedCounters w) (savedCounters (serve clock r w))
  ∧ counters_le (savedCounters (serve clock r w)) (mgr (serve clock r w)).
Proof.
  intros [Hwf _] Hle Hr.
  destruct (serve_counters r w Hwf Hr) as [[Hd Hm]|[[Hmd Hm]|[Hmd Hm]]].
  - rewrite (savedCounters_durable _ Hd). split; [|apply counters_le_refl].
    by eapply counters_le_trans.
  - rewrite (savedCounters_metadata _ _ Hmd). split; [apply counters_le_refl|].
    by eapply counters_le_trans.
  - rewrite (savedCounters_metadata _ _ Hmd), Hm.
    split; apply counters_le_refl.
Qed.

Lemma session_savedCounters rs : ∀ w,
  consistent w → counters_le (savedCounters w) (mgr w) →
  Forall (λ r, is_clearAll r = false) rs →
  let w' := foldl (λ w r, serve clock r w) w rs in
  counters_le (savedCounters w) (savedCounters w')
  ∧ counters_le (savedCounters w') (mgr w').
Proof.
  induction rs as [|r rs IH]; intros w Hc Hle Hall; cbn.
  - split; [apply counters_le_refl|done].
  - apply Forall_cons in Hall as [Hr Hall].
    destruct (serve_savedCounters r w Hc Hle Hr) as [H1 H2].
    destruct (IH (serve clock r w) (consistent_serve clock r w Hc) H2 Hall) as [H3 H4].
    split; [by eapply counters_le_trans|done].
Qed.

(** Whatever the requests, the saved counters are at or below those in
    memory. *)
Lemma session_counters_le rs : ∀ w,
  consistent w → counters_le (savedCounters w) (mgr w) →
  let w' := foldl (λ w r, serve clock r w) w rs in
  consistent w' ∧ counters_le (savedCounters w') (mgr w').
Proof.
  induction rs as [|r rs IH]; intros w Hc Hle; cbn; [done|].
  apply IH; [by apply consistent_serve|].
  destruct (is_clearAll r) eqn:Hr.
  - destruct r; try discriminate Hr. cbn [serve]. rewrite clearAll_ok. cbn.
    apply counters_le_refl.
  - by apply serve_savedCounters.
Qed.

End Session.



(** ** The adapter: order of the calls *)

Lemma step_handlers st a :
  (∀ e h, a ≠ LocalAjax.CallOn e h) →
  LocalAjax.handlers (LocalAjax.step st a) = LocalAjax.handlers st.
Proof.
  intros Ha. destruct a as [e h|s| |]; cbn.
  - by destruct (Ha e h).
  - destruct (LocalAjax.promise st); [done|]. by destruct s.
  - done.
  - unfold LocalAjax.run_due_timers. by destruct (foldl_emit
      (filter (λ t, (LocalAjax.due t ≤ LocalAjax.time st)%nat) (LocalAjax.timers st))
      (LocalAjax.mkState (LocalAjax.handlers st) (LocalAjax.promise st)
         (filter (λ t, ¬ (LocalAjax.due t ≤ LocalAjax.time st)%nat) (LocalAjax.timers st))
         (LocalAjax.time st) (LocalAjax.emitted st) (LocalAjax.calls st)))
      as (-> & _).
Qed.

(** The handler list of an event is what was subscribed to it, in order. *)
Lemma handlers_run event schedule : ∀ st,
  event ∉ LocalAjax.objectPrototypeKeys →
  default [] (LocalAjax.handlers (LocalAjax.run schedule st) !! event)
  = default [] (LocalAjax.handlers st !! event) ++ subscribed event schedule.
Proof.
  induction schedule as [|a l IH]; intros st Hev.
  - cbn. by rewrite app_nil_r.
  - rewrite run_cons, (IH _ Hev).
    destruct a as [e h|s| |].
    + cbn [LocalAjax.step]. rewrite on_handlers. cbn [subscribed omap list_omap].
      case_bool_decide as Hkey.
      * rewrite decide_False; [done|]. intros ->. contradiction.
      * destruct (decide (e = event)) as [->|Hne]; [|done].
        cbn. by rewrite <- app_assoc.
    + by rewrite step_handlers.
    + by rewrite step_handlers.
    + by rewrite step_handlers.
Qed.

Lemma forEach_call_all hs args :
  Forall (λ h, LocalAjax.h_throws h = false) hs →
  LocalAjax.forEach_call hs args = (λ h, LocalAjax.mkCall h args) <$> hs.
Proof.
  induction 1 as [|h hs Hh _ IH]; [done|]. cbn. by rewrite Hh, IH.
Qed.

Lemma forEach_call_throw hs1 h hs2 args :
  Forall (λ g, LocalAjax.h_throws g = false) hs1 → LocalAjax.h_throws h = true →
  LocalAjax.forEach_call (hs1 ++ h :: hs2) args
  = ((λ g, LocalAjax.mkCall g args) <$> hs1) ++ [LocalAjax.mkCall h args].
Proof.
  intros Hall Hh. induction Hall as [|g hs1 Hg _ IH]; cbn.
  - by rewrite Hh.
  - by rewrite Hg, IH.
Qed.

(** X22.  When the event of an adapter fires, the handlers subscribed to
    it before the promise settled are called in the order of their
    subscriptions, one call per subscription (a function subscribed twice
    is called twice), each with the status and the payload; handlers of
    the other event are not called.  A handler that throws ends the round:
    it has been called, those subscribed after it are not. *)
Theorem handlers_are_called_in_subscription_order (t0 dt : nat)
    (s : LocalAjax.Settlement) (x : list LocalAjax.Action) :
  Forall (λ a, LocalAjax.is_settle a = false) x → (10 ≤ dt)%nat →
  let event := match s with
               | LocalAjax.Resolved _ => "load"
               | LocalAjax.Rejected _ => "error"
               end in
  let args := match s with
              | LocalAjax.Resolved result => [JNum 200; result]
              | LocalAjax.Rejected error => [JNum 500; error]
              end in
  let final :=
    LocalAjax.run
      (x ++ [LocalAjax.PromiseSettles s; LocalAjax.TimePasses dt; LocalAjax.RunDueTimers])
      (LocalAjax.construct t0) in
  LocalAjax.calls final = LocalAjax.forEach_call (subscribed event x) args
  ∧ (Forall (λ h, LocalAjax.h_throws h = false) (subscribed event x) →
     LocalAjax.calls final = (λ h, LocalAjax.mkCall h args) <$> subscribed event x)
  ∧ (∀ hs1 h hs2, subscribed event x = hs1 ++ h :: hs2 →
       Forall (λ g, LocalAjax.h_throws g = false) hs1 → LocalAjax.h_throws h = true →
       LocalAjax.calls final
       = ((λ g, LocalAjax.mkCall g args) <$> hs1) ++ [LocalAjax.mkCall h args]).
Proof.
  intros Hx Hdt event args final.
  assert (LocalAjax.calls final = LocalAjax.forEach_call (subscribed event x) args)
    as Hcalls.
  { subst final. rewrite run_app.
    pose proof (settle_step x s t0 Hx) as Hst. cbv zeta in Hst.
    destruct Hst as (Hpromise & Htime & Hemitted & Hcalls & Htimers).
    assert (event ∉ LocalAjax.objectPrototypeKeys) as Hev.
    { subst event. destruct s; by apply (bool_decide_unpack _). }
    pose proof (handlers_run event x (LocalAjax.construct t0) Hev) as Hh.
    cbn [LocalAjax.construct LocalAjax.handlers] in Hh.
    rewrite lookup_empty in Hh. cbn [default app] in Hh.
    set (before := LocalAjax.run x (LocalAjax.construct t0)) in *.
    rewrite !run_cons. cbn [LocalAjax.run foldl].
    set (st := LocalAjax.step before (LocalAjax.PromiseSettles s)) in *.
    assert (LocalAjax.handlers st = LocalAjax.handlers before) as Hhst
      by by apply step_handlers.
    set (T := match s with
              | LocalAjax.Resolved result =>
                  LocalAjax.mkTimer (t0 + LocalAjax.elapsed x + 10) "load" [JNum 200; result]
              | LocalAjax.Rejected error =>
                  LocalAjax.mkTimer (t0 + LocalAjax.elapsed x + 10) "error" [JNum 500; error]
              end) in *.
    clearbody st before. cbn [LocalAjax.step].
    rewrite (run_due_timers_fire _ T); [|exact Htimers|].
    - cbn. rewrite Hcalls, Hhst. cbn [app].
      assert (LocalAjax.t_event T = event ∧ LocalAjax.t_args T = args) as [-> ->]
        by by subst T event args; destruct s.
      destruct (LocalAjax.handlers before !! event) as [hs|] eqn:Hhs.
      + cbn in Hh. by rewrite Hh.
      + cbn in Hh. by rewrite <- Hh.
    - cbn. rewrite Htime. subst T. destruct s; cbn; lia. }
  split_and!.
  - exact Hcalls.
  - intros Hall. by rewrite Hcalls, forEach_call_all.
  - intros hs1 h hs2 Heq Hall Hh. rewrite Hcalls, Heq. by apply forEach_call_throw.
Qed.

(** The theorem for two subscriptions of one handler to "load" and one to
    "error", on a promise that resolves. *)
Lemma handlers_are_called_in_subscription_order_witness :
  let x := [LocalAjax.CallOn "load" onLoad; LocalAjax.CallOn "error" onError;
            LocalAjax.TimePasses 3; LocalAjax.CallOn "load" onLoad] in
  Forall (λ a, LocalAjax.is_settle a = false) x
  ∧ (10 ≤ 10)%nat
  ∧ LocalAjax.calls
      (LocalAjax.run
         (x ++ [LocalAjax.PromiseSettles (LocalAjax.Resolved (JStr "ok"));
                LocalAjax.TimePasses 10; LocalAjax.RunDueTimers])
         (LocalAjax.construct 0))
    = [LocalAjax.mkCall onLoad [JNum 200; JStr "ok"];
       LocalAjax.mkCall onLoad [JNum 200; JStr "ok"]].
Proof.
  intros x.
  assert (Forall (λ a, LocalAjax.is_settle a = false) x) as Hx by by repeat constructor.
  split; [exact Hx|]. split; [lia|].
  destruct (handlers_are_called_in_subscription_order 0 10
              (LocalAjax.Resolved (JStr "ok")) x Hx ltac:(lia)) as (Hcalls & _).
  exact Hcalls.
Defined.
